(** * Langton's ant with decaying pheromone trails

    A shallow embedding of the simulation core of
    [TASK!_24CY10010_ArnavGawade-Fair.py]: the class [Ant] with its method
    [move], and of [LangtonsAntSimulation] the constructor, the method
    [decay_pheromones] and the simulation part of the body of the loop of
    [run] (moving every ant, decaying, counting the step), and of its
    drawing the offsets of the window, [draw_cells] and the markers of the
    ants.  Window creation, event polling and the step counter's text are
    left out.

    Python integers are [Z].  The entries of [pheromone_strengths] and the
    probabilities are IEEE binary64 numbers in the source (numpy [float64],
    Python [float]); they are the kernel's primitive floats here, so every
    subtraction, product and comparison rounds as it does in the program.
    [grid] and [pheromones] have [dtype=int], 64-bit integers: their entries
    are [Z], and the one store of an arbitrary Python integer, the id of an
    ant, checks the range.  A raised exception is a value of the result
    type.

    The module constants [GRID_SIZE] and [DECAY_RATE] are arguments [N] and
    [rate] of the functions that use them, so that the scenario of the
    specification (a grid of side 10) runs on the same definitions as the
    source's grid of side 1000. *)

From Stdlib Require Import ZArith Lia Floats.
From stdpp Require Import base tactics option list.

Set Warnings "-inexact-float".
#[local] Open Scope Z_scope.

(** ** Python: exceptions, indexing, arithmetic *)

Module Py.

Inductive exn : Set :=
  IndexError | ValueError | ZeroDivisionError | OverflowError.

Inductive result (A : Type) : Type :=
| Ok (a : A)
| Raise (e : exn).
Arguments Ok {A} a.
Arguments Raise {A} e.

#[export] Instance exn_eq_dec : EqDecision exn.
Proof. solve_decision. Defined.
#[export] Instance result_eq_dec {A} `{EqDecision A} : EqDecision (result A).
Proof. solve_decision. Defined.

#[export] Instance result_ret : MRet result := @Ok.
#[export] Instance result_bind : MBind result :=
  λ A B f m, match m with Ok a => f a | Raise e => Raise e end.

(** An index into a sequence of length [len]: [0 .. len-1] as it is,
    [-len .. -1] counted from the end, anything else an [IndexError]. *)
Definition index (len : nat) (i : Z) : result nat :=
  if decide (0 ≤ i < Z.of_nat len) then Ok (Z.to_nat i)
  else if decide (- Z.of_nat len ≤ i < 0) then Ok (Z.to_nat (i + Z.of_nat len))
  else Raise IndexError.

(** [l[i]] *)
Definition getitem {A} (l : list A) (i : Z) : result A :=
  k ← index (length l) i;
  from_option Ok (Raise IndexError) (l !! k).

(** [a % n] on integers: floored, the sign of the divisor, as [Z.modulo]. *)
Definition mod_ (a n : Z) : result Z :=
  if decide (n = 0) then Raise ZeroDivisionError else Ok (a `mod` n).

(** An integer as the binary floating-point number of the same value, the
    whole integer being the mantissa. *)
Definition int_exact (z : Z) : spec_float :=
  match z with
  | Z0 => S754_zero false
  | Zpos p => S754_finite false p 0
  | Zneg p => S754_finite true p 0
  end.

(** [a / b] on integers (true division): the quotient of the two integers
    rounded once to binary64, to nearest and ties to even; a zero divisor is
    a [ZeroDivisionError], a quotient too large for a [float] an
    [OverflowError]. *)
Definition truediv (a b : Z) : result float :=
  if decide (b = 0) then Raise ZeroDivisionError
  else match SFdiv prec emax (int_exact a) (int_exact b) with
       | S754_infinity _ => Raise OverflowError
       | q => Ok (SF2Prim q)
       end.

End Py.

Import Py.

(** ** numpy: two-dimensional arrays as lists of rows *)

Module Np.

Definition shape {A} (a : list (list A)) : list nat := length <$> a.

(** [np.zeros((n, m))]; a negative dimension is a [ValueError]. *)
Definition zeros {A} (zero : A) (n m : Z) : result (list (list A)) :=
  if decide (n < 0 ∨ m < 0) then Raise ValueError
  else Ok (replicate (Z.to_nat n) (replicate (Z.to_nat m) zero)).

(** The row and the column that the index pair [i, j] addresses. *)
Definition locate {A} (a : list (list A)) (i j : Z) : result (nat * nat) :=
  r ← Py.index (length a) i;
  row ← from_option Ok (Raise IndexError) (a !! r);
  c ← Py.index (length row) j;
  Ok (r, c).

(** [a[i, j]] *)
Definition get {A} (a : list (list A)) (i j : Z) : result A :=
  row ← Py.getitem a i;
  Py.getitem row j.

(** [a[i, j] = v] *)
Definition set {A} (a : list (list A)) (i j : Z) (v : A) :
    result (list (list A)) :=
  r ← Py.index (length a) i;
  row ← from_option Ok (Raise IndexError) (a !! r);
  c ← Py.index (length row) j;
  Ok (<[r := <[c := v]> row]> a).

(** A Python integer on its way into an array of [dtype=int] (64 bits): one
    that does not fit is an [OverflowError]. *)
Definition int64 (v : Z) : result Z :=
  if decide (- 2 ^ 63 ≤ v < 2 ^ 63) then Ok v else Raise OverflowError.

(** An elementwise operation, and one on two arrays of the same shape (a
    boolean mask of another shape is an error in numpy; the three arrays of
    the simulation are allocated with one shape and keep it). *)
Definition map {A B} (f : A → B) (a : list (list A)) : list (list B) :=
  (λ row : list A, f <$> row) <$> a.

Definition map2 {A B C} (f : A → B → C)
    (a : list (list A)) (b : list (list B)) : list (list C) :=
  zip_with (zip_with f) a b.

(** [np.clip(x, lo, hi)] on one entry: [minimum(maximum(x, lo), hi)]; a NaN
    entry stays a NaN. *)
Definition maximum (a b : float) : float := if (a <? b)%float then b else a.
Definition minimum (a b : float) : float := if (b <? a)%float then b else a.
Definition clip (lo hi x : float) : float := minimum (maximum x lo) hi.

End Np.

(** ** Module constants *)

Definition GRID_SIZE : Z := 1000.
Definition PHEROMONE_DECAY_STEPS : Z := 5.
(** [DECAY_RATE = 1 / PHEROMONE_DECAY_STEPS] *)
Definition DECAY_RATE : float := (1 / 5)%float.

Definition DIRECTIONS : list (Z * Z) := [(0, -1); (1, 0); (0, 1); (-1, 0)].

(** ** class Ant *)

Module Ant.

Record t : Set := Build {
  x : Z;
  y : Z;
  direction : Z;
  pheromone : Z
}.

(** Lines 36-42: the probability of moving straight, from the pheromone
    owner and strength read at the ant's cell. *)
Definition move_straight_prob (self : t)
    (current_pheromone : Z) (pheromone_strength : float) : float :=
  if decide (current_pheromone = pheromone self)
  then (0.8 * pheromone_strength)%float
  else if decide (current_pheromone ≠ 0)
  then (0.2 * pheromone_strength)%float
  else 0.5%float.

(** Lines 44-47: [r] is the value of [random.random()]. *)
Definition new_direction (self : t) (r : float)
    (current_color : Z) (move_straight_prob : float) : Z :=
  if (r <? move_straight_prob)%float
  then direction self
  else (direction self + (if decide (current_color = 0) then 1 else -1)) `mod` 4.

(** [Ant.move]; [N] is the module constant [GRID_SIZE], [r] the value that
    [random.random()] returns in this call.  The three arrays are mutated
    in place in the source and returned here. *)
Definition move (N : Z) (self : t) (r : float)
    (grid pheromones : list (list Z)) (pheromone_strengths : list (list float)) :
    result (t * list (list Z) * list (list Z) * list (list float)) :=
  current_color ← Np.get grid (y self) (x self);
  current_pheromone ← Np.get pheromones (y self) (x self);
  pheromone_strength ← Np.get pheromone_strengths (y self) (x self);
  let prob := move_straight_prob self current_pheromone pheromone_strength in
  let new_direction := new_direction self r current_color prob in
  cell ← Np.get grid (y self) (x self);
  grid ← Np.set grid (y self) (x self) (Z.lxor cell 1);
  owner ← Np.int64 (pheromone self);
  pheromones ← Np.set pheromones (y self) (x self) owner;
  pheromone_strengths ← Np.set pheromone_strengths (y self) (x self) 1%float;
  '(dx, dy) ← Py.getitem DIRECTIONS new_direction;
  x' ← Py.mod_ (x self + dx) N;
  y' ← Py.mod_ (y self + dy) N;
  Ok ({| x := x'; y := y'; direction := new_direction;
         pheromone := pheromone self |},
      grid, pheromones, pheromone_strengths).

End Ant.

(** ** class LangtonsAntSimulation *)

Module LangtonsAntSimulation.

Record t : Type := Build {
  grid : list (list Z);
  pheromones : list (list Z);
  pheromone_strengths : list (list float);
  ants : list Ant.t;
  steps : Z
}.

(** [__init__], for the module constant [GRID_SIZE = N]; [d1] and [d2] are
    the two values of [random.randint(0, 3)]. *)
Definition init (N : Z) (d1 d2 : Z) : result t :=
  grid ← Np.zeros 0 N N;
  pheromones ← Np.zeros 0 N N;
  pheromone_strengths ← Np.zeros 0%float N N;
  Ok {| grid := grid;
        pheromones := pheromones;
        pheromone_strengths := pheromone_strengths;
        ants := [ Ant.Build (N `div` 2) (N `div` 2) d1 1;
                  Ant.Build (N `div` 2 + 10) (N `div` 2 + 10) d2 2 ];
        steps := 0 |}.

(** One entry of [pheromone_strengths] through lines 95 and 96: the rate is
    subtracted where the entry is positive, the result clipped to [0, 1]. *)
Definition decay_strength (rate : float) (s : float) : float :=
  Np.clip 0 1 (if (0 <? s)%float then (s - rate)%float else s).

(** [decay_pheromones], for [DECAY_RATE = rate]. *)
Definition decay_pheromones (rate : float) (self : t) : t :=
  let pheromone_strengths :=
    Np.map (λ s, if (0 <? s)%float then (s - rate)%float else s)
      (pheromone_strengths self) in
  let pheromone_strengths := Np.map (Np.clip 0 1) pheromone_strengths in
  let pheromones :=
    Np.map2 (λ o s, if (s =? 0)%float then 0 else o)
      (pheromones self) pheromone_strengths in
  {| grid := grid self;
     pheromones := pheromones;
     pheromone_strengths := pheromone_strengths;
     ants := ants self;
     steps := steps self |}.

(** Line 110 for the ant at index [i] of [self.ants]: the ant object and the
    three arrays are updated in place. *)
Definition move_ant (N : Z) (r : float) (i : nat) (self : t) : result t :=
  ant ← from_option Ok (Raise IndexError) (ants self !! i);
  '(ant, grid, pheromones, pheromone_strengths) ←
    Ant.move N ant r (grid self) (pheromones self) (pheromone_strengths self);
  Ok {| grid := grid;
        pheromones := pheromones;
        pheromone_strengths := pheromone_strengths;
        ants := <[i := ant]> (ants self);
        steps := steps self |}.

(** A [for] loop over the indices [idx], with a body that may raise. *)
Fixpoint for_each (idx : list nat) (body : nat → t → result t) (self : t) :
    result t :=
  match idx with
  | [] => Ok self
  | i :: idx => self ← body i self; for_each idx body self
  end.

(** Lines 109-110: [for ant in self.ants: ant.move(...)]; the ant at index
    [i] draws [rand i]. *)
Definition move_ants (N : Z) (rand : nat → float) (self : t) : result t :=
  for_each (seq 0 (length (ants self))) (λ i, move_ant N (rand i) i) self.

(** Lines 108-115, one iteration of the loop of [run] without its drawing:
    every ant moves, the pheromones decay, the step is counted. *)
Definition stepAll (N : Z) (rate : float) (rand : nat → float) (self : t) :
    result t :=
  self ← move_ants N rand self;
  let self := decay_pheromones rate self in
  Ok {| grid := grid self;
        pheromones := pheromones self;
        pheromone_strengths := pheromone_strengths self;
        ants := ants self;
        steps := steps self + 1 |}.

(** [n] iterations of the loop of [run] (the loop ends when the window is
    closed); iteration [k] draws from [rand k]. *)
Fixpoint run (N : Z) (rate : float) (rand : nat → nat → float) (n : nat)
    (self : t) : result t :=
  match n with
  | O => Ok self
  | S n =>
      self ← stepAll N rate (rand O) self;
      run N rate (λ k, rand (S k)) n self
  end.

(** Loading the module and constructing the simulation, for the constants
    [GRID_SIZE = N] and [PHEROMONE_DECAY_STEPS = decay_steps]: line 13
    divides by the latter, [__init__] allocates the arrays. *)
Definition construct (N decay_steps : Z) (d1 d2 : Z) : result (float * t) :=
  rate ← Py.truediv 1 decay_steps;
  self ← init N d1 d2;
  Ok (rate, self).

(** *** Invariants of the simulation state *)

(** The three arrays are [N] by [N]. *)
Definition shaped (N : Z) (self : t) : Prop :=
  let n := Z.to_nat N in
  Np.shape (grid self) = replicate n n ∧
  Np.shape (pheromones self) = replicate n n ∧
  Np.shape (pheromone_strengths self) = replicate n n.

(** A cell whose strength compares equal to zero has no owner. *)
Definition owner_cleared (self : t) : Prop :=
  ∀ i j s,
    Np.get (pheromone_strengths self) i j = Ok s → (s =? 0)%float = true →
    Np.get (pheromones self) i j = Ok 0.

(** Every ant is on the grid and faces one of the four directions, and its
    pheromone id fits an entry of [pheromones]. *)
Definition ants_on_grid (N : Z) (self : t) : Prop :=
  ∀ a, a ∈ ants self →
    0 ≤ Ant.x a < N ∧ 0 ≤ Ant.y a < N ∧ 0 ≤ Ant.direction a < 4 ∧
    - 2 ^ 63 ≤ Ant.pheromone a < 2 ^ 63.

(** No ant has the pheromone id 0, which marks a cell without pheromone. *)
Definition ants_tagged (self : t) : Prop :=
  ∀ a, a ∈ ants self → Ant.pheromone a ≠ 0.

(** The strengths that occur with [DECAY_RATE = 1/5]: zero, full strength,
    and what the successive subtractions leave of it. *)
Definition levels : list float :=
  [ 0; 0x1p-54; 0.20000000000000007; 0.4000000000000001;
    0.6000000000000001; 0.8; 1 ]%float.

Definition strengths_on_levels (self : t) : Prop :=
  ∀ i j s, Np.get (pheromone_strengths self) i j = Ok s → s ∈ levels.

End LangtonsAntSimulation.

Module Sim := LangtonsAntSimulation.

(** ** The scenario of the specification: a grid of side 10, one ant *)

Definition scenario : Sim.t :=
  {| Sim.grid := replicate 10 (replicate 10 0);
     Sim.pheromones := replicate 10 (replicate 10 0);
     Sim.pheromone_strengths := replicate 10 (replicate 10 0%float);
     Sim.ants := [Ant.Build 5 5 0 1];
     Sim.steps := 0 |}.

(** The scenario once its ant has moved, before any decay. *)
Definition scenario_deposit : Sim.t :=
  {| Sim.grid := <[5%nat := <[5%nat := 1]> (replicate 10 0)]>
                   (replicate 10 (replicate 10 0));
     Sim.pheromones := <[5%nat := <[5%nat := 1]> (replicate 10 0)]>
                         (replicate 10 (replicate 10 0));
     Sim.pheromone_strengths :=
       <[5%nat := <[5%nat := 1%float]> (replicate 10 0%float)]>
         (replicate 10 (replicate 10 0%float));
     Sim.ants := [Ant.Build 6 5 1 1];
     Sim.steps := 0 |}.

(** ** The window on the grid and what is drawn in it

    Lines 82-87 and 117-132 of the source: the offsets of the visible window
    follow the ants, [draw_cells] draws the cells of the window and the loop
    of [run] draws a marker for every ant in it.  A call of
    [pygame.draw.rect] is recorded as the pair of its color and rectangle;
    what a function draws is the list of these pairs in drawing order. *)

Definition VISIBLE_GRID : Z := 100.
Definition CELL_SIZE : Z := 8.
Definition SCREEN_SIZE : Z := VISIBLE_GRID * CELL_SIZE.

Module Pygame.

(** [pygame.Rect(left, top, width, height)] *)
Record Rect : Set := Build_Rect {
  left : Z;
  top : Z;
  width : Z;
  height : Z
}.

Definition Color : Set := (Z * Z * Z)%type.

Definition Draw : Set := (Color * Rect)%type.

End Pygame.

Module Display.

Import Pygame.

(** The builtin [min] on the values of an iterable: a [ValueError] on an
    empty one. *)
Definition min_of (l : list Z) : result Z :=
  match l with
  | [] => Raise ValueError
  | v :: l => Ok (foldl Z.min v l)
  end.

(** A loop that collects what its body returns, up to the first exception. *)
Fixpoint for_list {A B} (body : A → result B) (l : list A) : result (list B) :=
  match l with
  | [] => Ok []
  | a :: l => b ← body a; bs ← for_list body l; Ok (b :: bs)
  end.

(** Lines 118-121: the offsets of the window, as [(offset_x, offset_y)]. *)
Definition viewport (N : Z) (ants : list Ant.t) : result (Z * Z) :=
  min_x ← min_of (Ant.x <$> ants);
  let offset_x := min_x - VISIBLE_GRID `div` 2 in
  min_y ← min_of (Ant.y <$> ants);
  let offset_y := min_y - VISIBLE_GRID `div` 2 in
  let offset_x := Z.max 0 (Z.min offset_x (N - VISIBLE_GRID)) in
  let offset_y := Z.max 0 (Z.min offset_y (N - VISIBLE_GRID)) in
  Ok (offset_x, offset_y).

(** Lines 85-87, the body of the loops of [draw_cells] at [(x, y)]. *)
Definition draw_cell (grid : list (list Z)) (offset_x offset_y : Z) (y x : Z) :
    result Draw :=
  cell ← Np.get grid (y + offset_y) (x + offset_x);
  let color := if decide (cell = 0) then (255, 255, 255) else (0, 0, 0) in
  let rect := Build_Rect (x * CELL_SIZE) (y * CELL_SIZE) CELL_SIZE CELL_SIZE in
  Ok (color, rect).

(** [draw_cells] *)
Definition draw_cells (grid : list (list Z)) (offset_x offset_y : Z) :
    result (list Draw) :=
  rows ← for_list (λ y,
            for_list (draw_cell grid offset_x offset_y y)
              (seqZ 0 VISIBLE_GRID))
          (seqZ 0 VISIBLE_GRID);
  Ok (concat rows).

(** Lines 127-132, the body of the loop over the ants: the marker of an ant,
    if it is drawn. *)
Definition draw_ant (offset_x offset_y : Z) (ant : Ant.t) : option Draw :=
  let screen_x := (Ant.x ant - offset_x) * CELL_SIZE + CELL_SIZE `div` 4 in
  let screen_y := (Ant.y ant - offset_y) * CELL_SIZE + CELL_SIZE `div` 4 in
  if decide (0 ≤ screen_x < SCREEN_SIZE ∧ 0 ≤ screen_y < SCREEN_SIZE) then
    let rect :=
      Build_Rect screen_x screen_y (CELL_SIZE `div` 2) (CELL_SIZE `div` 2) in
    let color :=
      if decide (Ant.pheromone ant = 1) then (255, 0, 0) else (0, 0, 255) in
    Some (color, rect)
  else None.

(** Lines 117-132 without the fill, the step counter and the flip: the new
    offsets, the cells of the window, the markers of the ants. *)
Definition render (N : Z) (sim : Sim.t) : result (Z * Z * list Draw) :=
  '(offset_x, offset_y) ← viewport N (Sim.ants sim);
  cells ← draw_cells (Sim.grid sim) offset_x offset_y;
  Ok (offset_x, offset_y,
      cells ++ omap (draw_ant offset_x offset_y) (Sim.ants sim)).

(** A rectangle lies within another one. *)
Definition inside (inner outer : Rect) : Prop :=
  left outer ≤ left inner ∧ left inner + width inner ≤ left outer + width outer ∧
  top outer ≤ top inner ∧ top inner + height inner ≤ top outer + height outer.

End Display.

(** ** Further invariants of the simulation state *)

(** Every cell has the color 0 or 1. *)
Definition binary_grid (sim : Sim.t) : Prop :=
  ∀ i j c, Np.get (Sim.grid sim) i j = Ok c → c = 0 ∨ c = 1.

(** A cell whose strength does not compare equal to zero is owned by one of
    the ants. *)
Definition scent_owned (sim : Sim.t) : Prop :=
  ∀ i j s o,
    Np.get (Sim.pheromone_strengths sim) i j = Ok s →
    Np.get (Sim.pheromones sim) i j = Ok o →
    (s =? 0)%float = false → o ∈ Ant.pheromone <$> Sim.ants sim.

(** Between the steps: owners and strengths have one shape, the strengths
    are on the levels, and every scented cell has an owner among the ants. *)
Definition scent_inv (sim : Sim.t) : Prop :=
  Np.shape (Sim.pheromones sim) = Np.shape (Sim.pheromone_strengths sim) ∧
  Sim.strengths_on_levels sim ∧ scent_owned sim.

(** Every ant faces one of the four directions. *)
Definition ants_oriented (sim : Sim.t) : Prop :=
  ∀ a, a ∈ Sim.ants sim → 0 ≤ Ant.direction a < 4.

(** ** Binary64 products against one half

    The product [0.8 * s] is specified by the rounding function of the
    library ([binary_round_aux]): the exact product of the mantissas is
    shifted to 53 digits, rounded to nearest even, and shifted once more
    when the rounding carries. *)

(** The second shift of the rounding function and the result it builds,
    for the rounded mantissa [q'] at the exponent [e1]. *)
Definition round_finish (sx : bool) (q' e1 : Z) : spec_float :=
  let '(mrs'', e'') := shr_fexp prec emax q' e1 loc_Exact in
  match shr_m mrs'' with
  | Z0 => S754_zero sx
  | Zpos m => if e'' <=? emax - prec then S754_finite sx m e'' else S754_infinity sx
  | Zneg _ => S754_nan
  end.

(** A result below one half: zero, or a positive number whose exponent is
    below the exponent -53 of one half. *)
Definition below_half (r : spec_float) : Prop :=
  r = S754_zero false ∨ ∃ m e, r = S754_finite false m e ∧ e ≤ -54.

(** A result above one half: infinity, or a positive number with a larger
    exponent than one half, or the same exponent and a larger mantissa. *)
Definition above_half (r : spec_float) : Prop :=
  r = S754_infinity false ∨
  ∃ m e, r = S754_finite false m e ∧
         (-53 < e ∨ e = -53 ∧ 4503599627370496 < Zpos m).

(** ** The movement rule in the words of the specification *)

(** The probability of moving straight for an agent [pheromoneId] on a cell
    with owner [pheromoneOwner] and strength [pheromoneStrength]. *)
Definition moveStraightProbability (pheromoneId pheromoneOwner : Z)
    (pheromoneStrength : float) : float :=
  if decide (pheromoneOwner = pheromoneId) then (0.8 * pheromoneStrength)%float
  else if decide (pheromoneOwner ≠ 0) then (0.2 * pheromoneStrength)%float
  else 0.5%float.

(** * Properties *)

(** ** The result monad *)

Lemma bind_Ok {A B} (m : result A) (f : A → result B) (b : B) :
  m ≫= f = Ok b ↔ ∃ a, m = Ok a ∧ f a = Ok b.
Proof.
  destruct m as [a|e]; simpl; split.
  - intros H. by exists a.
  - by intros (a' & [= ->] & H).
  - discriminate.
  - by intros (a' & [=] & _).
Qed.

Lemma bind_of_Ok {A B} (m : result A) (f : A → result B) (a : A) :
  m = Ok a → m ≫= f = f a.
Proof. by intros ->. Qed.

Lemma from_option_Ok {A} (o : option A) (a : A) (e : exn) :
  from_option Ok (Raise e) o = Ok a ↔ o = Some a.
Proof. destruct o; simpl; split; congruence. Qed.

(** Splits a hypothesis [(x ← m; k) = Ok v] into its successful steps. *)
Ltac inv_Ok :=
  repeat match goal with
  | H : _ ≫= _ = Ok _ |- _ => apply bind_Ok in H; destruct H as (? & ? & H)
  | H : from_option Ok (Raise _) _ = Ok _ |- _ => apply from_option_Ok in H
  | H : Ok _ = Ok _ |- _ => injection H as H
  | H : mret _ = Ok _ |- _ => injection H as H
  end.

(** ** Indexing *)

Lemma index_lt len i k : Py.index len i = Ok k → (k < len)%nat.
Proof.
  unfold Py.index. repeat case_decide; intros [= <-]; lia.
Qed.

Lemma index_nonneg len i :
  0 ≤ i < Z.of_nat len → Py.index len i = Ok (Z.to_nat i).
Proof. intros H. unfold Py.index. by rewrite decide_True. Qed.

Lemma getitem_Ok {A} (l : list A) i v :
  Py.getitem l i = Ok v ↔ ∃ k, Py.index (length l) i = Ok k ∧ l !! k = Some v.
Proof.
  unfold Py.getitem. rewrite bind_Ok.
  by setoid_rewrite from_option_Ok.
Qed.

Lemma get_Ok {A} (a : list (list A)) i j v :
  Np.get a i j = Ok v ↔
  ∃ r row c, Py.index (length a) i = Ok r ∧ a !! r = Some row ∧
             Py.index (length row) j = Ok c ∧ row !! c = Some v.
Proof.
  unfold Np.get. rewrite bind_Ok. setoid_rewrite getitem_Ok. split.
  - intros (row & (r & Hr & Hrow) & c & Hc & Hv). by exists r, row, c.
  - intros (r & row & c & Hr & Hrow & Hc & Hv). exists row. split; eauto.
Qed.

Lemma set_Ok {A} (a a' : list (list A)) i j v :
  Np.set a i j v = Ok a' ↔
  ∃ r row c, Py.index (length a) i = Ok r ∧ a !! r = Some row ∧
             Py.index (length row) j = Ok c ∧ a' = <[r := <[c := v]> row]> a.
Proof.
  unfold Np.set. rewrite bind_Ok. split.
  - intros (r & Hr & H). inv_Ok. subst. eauto 10.
  - intros (r & row & c & Hr & Hrow & Hc & ->). exists r. split; [done|].
    rewrite Hrow. simpl. by rewrite Hc.
Qed.

(** A write succeeds exactly where a read does. *)
Lemma set_is_Ok {A} (a : list (list A)) i j v w :
  Np.get a i j = Ok w → ∃ a', Np.set a i j v = Ok a'.
Proof.
  rewrite get_Ok. intros (r & row & c & Hr & Hrow & Hc & _).
  eexists. apply set_Ok. eauto 10.
Qed.

Lemma shape_set {A} (a a' : list (list A)) i j v :
  Np.set a i j v = Ok a' → Np.shape a' = Np.shape a.
Proof.
  rewrite set_Ok. intros (r & row & c & _ & Hrow & _ & ->).
  unfold Np.shape. rewrite list_fmap_insert, length_insert.
  apply list_insert_id. by rewrite list_lookup_fmap, Hrow.
Qed.

Lemma shape_length {A B} (a : list (list A)) (b : list (list B)) :
  Np.shape a = Np.shape b → length a = length b.
Proof.
  unfold Np.shape. intros H.
  by rewrite <-(length_fmap length a), H, length_fmap.
Qed.

Lemma shape_lookup {A B} (a : list (list A)) (b : list (list B)) r row :
  Np.shape a = Np.shape b → a !! r = Some row →
  ∃ row', b !! r = Some row' ∧ length row' = length row.
Proof.
  unfold Np.shape. intros H Hrow.
  assert (Hl : (length <$> b) !! r = Some (length row))
    by by rewrite <-H, list_lookup_fmap, Hrow.
  rewrite list_lookup_fmap in Hl.
  destruct (b !! r) as [row'|]; simplify_eq/=. eauto.
Qed.

(** Arrays of one shape are readable at the same places. *)
Lemma get_same_shape {A B} (a : list (list A)) (b : list (list B)) i j v :
  Np.shape a = Np.shape b → Np.get a i j = Ok v → ∃ w, Np.get b i j = Ok w.
Proof.
  intros Hs. rewrite get_Ok. intros (r & row & c & Hr & Hrow & Hc & Hv).
  destruct (shape_lookup _ _ _ _ Hs Hrow) as (row' & Hrow' & Hlen).
  destruct (lookup_lt_is_Some_2 row' c) as [w Hw].
  { rewrite Hlen. eauto using index_lt. }
  exists w. apply get_Ok. exists r, row', c.
  by rewrite <-(shape_length _ _ Hs), Hlen.
Qed.

Lemma get_set_eq {A} (a a' : list (list A)) i j v :
  Np.set a i j v = Ok a' → Np.get a' i j = Ok v.
Proof.
  rewrite set_Ok. intros (r & row & c & Hr & Hrow & Hc & ->).
  apply get_Ok. exists r, (<[c := v]> row), c.
  rewrite !length_insert. split_and!; [done| |done|].
  - apply list_lookup_insert_eq. eauto using index_lt.
  - apply list_lookup_insert_eq. eauto using index_lt.
Qed.

(** Writing [v] leaves every entry that already is [v] as it is. *)
Lemma get_set_stable {A} (a a' : list (list A)) i j i' j' v :
  Np.set a i' j' v = Ok a' → Np.get a i j = Ok v → Np.get a' i j = Ok v.
Proof.
  rewrite set_Ok. intros (r' & row' & c' & Hr' & Hrow' & Hc' & ->).
  rewrite !get_Ok. intros (r & row & c & Hr & Hrow & Hc & Hv).
  rewrite length_insert.
  destruct (decide (r = r')) as [->|Hne].
  - rewrite Hrow' in Hrow. injection Hrow as ->.
    exists r', (<[c' := v]> row), c.
    rewrite length_insert. split_and!; [done| |done|].
    + apply list_lookup_insert_eq. eauto using index_lt.
    + destruct (decide (c = c')) as [->|Hcc].
      * apply list_lookup_insert_eq. eauto using index_lt.
      * by rewrite list_lookup_insert_ne.
  - exists r, row, c. by rewrite list_lookup_insert_ne.
Qed.

Lemma shape_map {A B} (f : A → B) (a : list (list A)) :
  Np.shape (Np.map f a) = Np.shape a.
Proof.
  unfold Np.shape, Np.map. rewrite <-list_fmap_compose.
  apply list_fmap_ext. intros _ row _. simpl. apply length_fmap.
Qed.

Lemma get_map {A B} (f : A → B) (a : list (list A)) i j v :
  Np.get a i j = Ok v → Np.get (Np.map f a) i j = Ok (f v).
Proof.
  rewrite !get_Ok. intros (r & row & c & Hr & Hrow & Hc & Hv).
  exists r, (f <$> row), c. unfold Np.map.
  by rewrite !length_fmap, !list_lookup_fmap, Hrow, Hv.
Qed.

Lemma get_map_inv {A B} (f : A → B) (a : list (list A)) i j w :
  Np.get (Np.map f a) i j = Ok w → ∃ v, Np.get a i j = Ok v ∧ w = f v.
Proof.
  intros H.
  destruct (get_same_shape _ a _ _ _ (shape_map f a) H) as [v Hv].
  exists v. split; [done|].
  apply (get_map f) in Hv. congruence.
Qed.

Lemma shape_map2 {A B C} (f : A → B → C) (a : list (list A)) (b : list (list B)) :
  Np.shape a = Np.shape b → Np.shape (Np.map2 f a b) = Np.shape a.
Proof.
  unfold Np.shape, Np.map2. revert b.
  induction a as [|row a IH]; intros [|row' b]; simpl; try done.
  intros [= Hlen Hs]. f_equal; [|by apply IH].
  rewrite length_zip_with. lia.
Qed.

Lemma get_map2 {A B C} (f : A → B → C) (a : list (list A)) (b : list (list B))
    i j v w :
  Np.shape a = Np.shape b → Np.get a i j = Ok v → Np.get b i j = Ok w →
  Np.get (Np.map2 f a b) i j = Ok (f v w).
Proof.
  intros Hs. rewrite !get_Ok.
  intros (r & row & c & Hr & Hrow & Hc & Hv) (r' & row' & c' & Hr' & Hrow' & Hc' & Hw).
  destruct (shape_lookup _ _ _ _ Hs Hrow) as (row'' & Hrow'' & Hlen).
  rewrite <-(shape_length _ _ Hs), Hr in Hr'. injection Hr' as <-.
  rewrite Hrow' in Hrow''. injection Hrow'' as <-.
  rewrite Hlen, Hc in Hc'. injection Hc' as <-.
  exists r, (zip_with f row row'), c. unfold Np.map2.
  rewrite !length_zip_with, !lookup_zip_with, Hrow, Hrow', Hv, Hw. simpl.
  rewrite <-(shape_length _ _ Hs), Hlen, !Nat.min_id. done.
Qed.

(** ** [Ant.move] step by step *)

Lemma getitem_DIRECTIONS d :
  0 ≤ d < 4 → ∃ dx dy, Py.getitem DIRECTIONS d = Ok (dx, dy).
Proof.
  intros H.
  assert (d = 0 ∨ d = 1 ∨ d = 2 ∨ d = 3) as [-> | [-> | [-> | ->]]] by lia;
    by eexists _, _.
Qed.

Lemma new_direction_range self r c p :
  0 ≤ Ant.direction self < 4 → 0 ≤ Ant.new_direction self r c p < 4.
Proof.
  intros H. unfold Ant.new_direction.
  destruct (r <? p)%float; [done|]. by apply Z.mod_pos_bound.
Qed.

Lemma move_Ok N self r g p s self' g' p' s' :
  Ant.move N self r g p s = Ok (self', g', p', s') →
  ∃ c o st dx dy,
    Np.get g (Ant.y self) (Ant.x self) = Ok c ∧
    Np.get p (Ant.y self) (Ant.x self) = Ok o ∧
    Np.get s (Ant.y self) (Ant.x self) = Ok st ∧
    Np.set g (Ant.y self) (Ant.x self) (Z.lxor c 1) = Ok g' ∧
    Np.set p (Ant.y self) (Ant.x self) (Ant.pheromone self) = Ok p' ∧
    Np.set s (Ant.y self) (Ant.x self) 1%float = Ok s' ∧
    Py.getitem DIRECTIONS
      (Ant.new_direction self r c (Ant.move_straight_prob self o st)) = Ok (dx, dy) ∧
    N ≠ 0 ∧ - 2 ^ 63 ≤ Ant.pheromone self < 2 ^ 63 ∧
    self' = Ant.Build ((Ant.x self + dx) `mod` N) ((Ant.y self + dy) `mod` N)
              (Ant.new_direction self r c (Ant.move_straight_prob self o st))
              (Ant.pheromone self).
Proof.
  unfold Ant.move. intros H.
  apply bind_Ok in H as (c & Hc & H).
  apply bind_Ok in H as (o & Ho & H).
  apply bind_Ok in H as (st & Hst & H).
  cbv zeta in H.
  apply bind_Ok in H as (c' & Hc' & H).
  rewrite Hc in Hc'. injection Hc' as <-.
  apply bind_Ok in H as (g1 & Hg & H).
  apply bind_Ok in H as (id & Hid & H).
  unfold Np.int64 in Hid. case_decide; [|done]. injection Hid as <-.
  apply bind_Ok in H as (p1 & Hp & H).
  apply bind_Ok in H as (s1 & Hs & H).
  apply bind_Ok in H as ([dx dy] & Hd & H).
  apply bind_Ok in H as (x' & Hx & H).
  apply bind_Ok in H as (y' & Hy & H).
  unfold Py.mod_ in Hx, Hy. case_decide; [done|].
  injection Hx as <-. injection Hy as <-. injection H as <- <- <- <-.
  by exists c, o, st, dx, dy.
Qed.

Lemma move_is_Ok N self r g p s c o st :
  N ≠ 0 → 0 ≤ Ant.direction self < 4 →
  - 2 ^ 63 ≤ Ant.pheromone self < 2 ^ 63 →
  Np.get g (Ant.y self) (Ant.x self) = Ok c →
  Np.get p (Ant.y self) (Ant.x self) = Ok o →
  Np.get s (Ant.y self) (Ant.x self) = Ok st →
  ∃ dx dy g' p' s',
    Py.getitem DIRECTIONS
      (Ant.new_direction self r c (Ant.move_straight_prob self o st)) = Ok (dx, dy) ∧
    Ant.move N self r g p s =
      Ok (Ant.Build ((Ant.x self + dx) `mod` N) ((Ant.y self + dy) `mod` N)
            (Ant.new_direction self r c (Ant.move_straight_prob self o st))
            (Ant.pheromone self), g', p', s').
Proof.
  intros HN Hd Hid Hc Ho Hst.
  destruct (set_is_Ok g _ _ (Z.lxor c 1) _ Hc) as [g' Hg].
  destruct (set_is_Ok p _ _ (Ant.pheromone self) _ Ho) as [p' Hp].
  destruct (set_is_Ok s _ _ 1%float _ Hst) as [s' Hs].
  destruct (getitem_DIRECTIONS
    (Ant.new_direction self r c (Ant.move_straight_prob self o st)))
    as (dx & dy & Hdir); [by apply new_direction_range|].
  exists dx, dy, g', p', s'. split; [done|].
  unfold Ant.move. rewrite Hc, Ho, Hst. simpl.
  unfold Np.int64. rewrite decide_True by done. simpl.
  rewrite Hg, Hp, Hs. simpl. rewrite Hdir. simpl.
  unfold Py.mod_. by rewrite !decide_False.
Qed.

Lemma locate_Ok {A} (a : list (list A)) i j r c :
  Np.locate a i j = Ok (r, c) ↔
  ∃ row, Py.index (length a) i = Ok r ∧ a !! r = Some row ∧
         Py.index (length row) j = Ok c.
Proof.
  unfold Np.locate. rewrite bind_Ok. split.
  - intros (r' & Hr & H). inv_Ok. simplify_eq. eauto.
  - intros (row & Hr & Hrow & Hc). exists r. split; [done|].
    rewrite Hrow. simpl. by rewrite Hc.
Qed.

Lemma set_locate {A} (a a' : list (list A)) i j v :
  Np.set a i j v = Ok a' → ∃ r c, Np.locate a i j = Ok (r, c).
Proof.
  rewrite set_Ok. intros (r & row & c & Hr & Hrow & Hc & _).
  exists r, c. apply locate_Ok. eauto.
Qed.

(** A write changes what is read at the addressed cell only, whichever index
    pair a later read uses for another cell. *)
Lemma get_set_ne {A} (a a' : list (list A)) i j i' j' v :
  Np.set a i j v = Ok a' → Np.locate a i' j' ≠ Np.locate a i j →
  Np.get a' i' j' = Np.get a i' j'.
Proof.
  rewrite set_Ok. intros (r & row & c & Hr & Hrow & Hc & ->) Hne.
  assert (Hloc : Np.locate a i j = Ok (r, c)) by (apply locate_Ok; eauto).
  rewrite Hloc in Hne. clear Hloc.
  unfold Np.get, Py.getitem, Np.locate in *. rewrite length_insert.
  destruct (Py.index (length a) i') as [r'|e]; simpl in *; [|done].
  destruct (decide (r' = r)) as [->|Hr'].
  - rewrite list_lookup_insert_eq by eauto using index_lt.
    rewrite Hrow in *. simpl in *. rewrite length_insert.
    destruct (Py.index (length row) j') as [c'|e]; simpl in *; [|done].
    rewrite list_lookup_insert_ne; [done|congruence].
  - by rewrite list_lookup_insert_ne.
Qed.

(** ** The movement rule *)

Lemma move_straight_prob_spec self o st :
  Ant.move_straight_prob self o st =
  moveStraightProbability (Ant.pheromone self) o st.
Proof. reflexivity. Qed.

(** C6: on a cell with color [c], owner [o] and strength [s], and with [p]
    the probability of moving straight ([0.8 * s] on the agent's own scent,
    [0.2 * s] on another agent's, [0.5] on none), a move leaves the agent
    with its old direction when the draw [r] is below [p], and otherwise
    with the old direction plus one modulo 4 on color 0 and minus one
    modulo 4 on color 1.  The move does return for an agent that faces one
    of the four directions and whose id fits 64 bits. *)
Theorem move_direction_rule N self r grid pheromones strengths c o s :
  Np.get grid (Ant.y self) (Ant.x self) = Ok c →
  Np.get pheromones (Ant.y self) (Ant.x self) = Ok o →
  Np.get strengths (Ant.y self) (Ant.x self) = Ok s →
  let p := moveStraightProbability (Ant.pheromone self) o s in
  (∀ self' grid' pheromones' strengths',
     Ant.move N self r grid pheromones strengths =
       Ok (self', grid', pheromones', strengths') →
     ((r <? p)%float = true → Ant.direction self' = Ant.direction self) ∧
     ((r <? p)%float = false → c = 0 →
        Ant.direction self' = (Ant.direction self + 1) `mod` 4) ∧
     ((r <? p)%float = false → c = 1 →
        Ant.direction self' = (Ant.direction self - 1) `mod` 4)) ∧
  (N ≠ 0 → 0 ≤ Ant.direction self < 4 →
   - 2 ^ 63 ≤ Ant.pheromone self < 2 ^ 63 →
   ∃ self' grid' pheromones' strengths',
     Ant.move N self r grid pheromones strengths =
       Ok (self', grid', pheromones', strengths')).
Proof.
  intros Hc Ho Hs p. split.
  - intros self' g' p' s' Hmove.
    apply move_Ok in Hmove
      as (c' & o' & st' & dx & dy & Hc' & Ho' & Hs' & _ & _ & _ & _ & _ & _ & ->).
    rewrite Hc in Hc'. rewrite Ho in Ho'. rewrite Hs in Hs'.
    injection Hc' as <-. injection Ho' as <-.
    assert (st' = s) as -> by congruence.
    rewrite move_straight_prob_spec. fold p. simpl.
    unfold Ant.new_direction. split_and!.
    + by intros ->.
    + intros -> ->. by rewrite decide_True.
    + intros -> ->. by rewrite decide_False.
  - intros HN Hd Hid.
    destruct (move_is_Ok N self r _ _ _ _ _ _ HN Hd Hid Hc Ho Hs)
      as (dx & dy & g' & p' & s' & _ & Hmove).
    by eexists _, g', p', s'.
Qed.

Lemma move_direction_rule_witness :
  ∃ self' grid' pheromones' strengths',
    Ant.move 10 (Ant.Build 5 5 0 1) 0.9%float
      (Sim.grid scenario) (Sim.pheromones scenario)
      (Sim.pheromone_strengths scenario) =
      Ok (self', grid', pheromones', strengths') ∧
    (0.9 <? moveStraightProbability 1 0 0)%float = false ∧
    Ant.direction self' = 1.
Proof.
  destruct (move_direction_rule 10 (Ant.Build 5 5 0 1) 0.9%float
              (Sim.grid scenario) (Sim.pheromones scenario)
              (Sim.pheromone_strengths scenario) 0 0 0%float
              eq_refl eq_refl eq_refl) as [Hrule Hreturns].
  destruct Hreturns as (self' & g' & p' & s' & Hmove); [lia|simpl; lia|simpl; lia|].
  exists self', g', p', s'. split; [exact Hmove|]. split; [reflexivity|].
  destruct (Hrule _ _ _ _ Hmove) as (_ & Hcw & _). by apply Hcw.
Defined.

(** ** What one move touches *)

Lemma move_ant_Ok N r i sim sim' :
  Sim.move_ant N r i sim = Ok sim' →
  ∃ a a' g' p' s',
    Sim.ants sim !! i = Some a ∧
    Ant.move N a r (Sim.grid sim) (Sim.pheromones sim)
      (Sim.pheromone_strengths sim) = Ok (a', g', p', s') ∧
    sim' = Sim.Build g' p' s' (<[i := a']> (Sim.ants sim)) (Sim.steps sim).
Proof.
  unfold Sim.move_ant. intros H.
  apply bind_Ok in H as (a & Ha & H). apply from_option_Ok in Ha.
  apply bind_Ok in H as ([[[a' g'] p'] s'] & Hmove & H).
  injection H as <-. by exists a, a', g', p', s'.
Qed.



(** ** The loop over the ants *)

Lemma for_each_seq_inv (P : nat → Sim.t → Prop) body start len sim sim' :
  P start sim →
  (∀ k s s', (start ≤ k < start + len)%nat →
     P k s → body k s = Ok s' → P (S k) s') →
  Sim.for_each (seq start len) body sim = Ok sim' →
  P (start + len)%nat sim'.
Proof.
  revert start sim. induction len as [|len IH]; intros start sim H0 Hstep; simpl.
  - intros [= <-]. by rewrite Nat.add_0_r.
  - intros H. apply bind_Ok in H as (s1 & Hbody & H).
    rewrite <-Nat.add_succ_comm. apply (IH (S start) s1); [| |done].
    + apply (Hstep start sim); [lia|done..].
    + intros k s s' Hk. apply Hstep. lia.
Qed.

Lemma for_each_seq_total (P : nat → Sim.t → Prop) body start len sim :
  P start sim →
  (∀ k s, (start ≤ k < start + len)%nat →
     P k s → ∃ s', body k s = Ok s' ∧ P (S k) s') →
  ∃ sim', Sim.for_each (seq start len) body sim = Ok sim' ∧
          P (start + len)%nat sim'.
Proof.
  revert start sim. induction len as [|len IH]; intros start sim H0 Hstep; simpl.
  - exists sim. by rewrite Nat.add_0_r.
  - destruct (Hstep start sim) as (s1 & Hbody & H1); [lia|done|].
    rewrite Hbody. simpl. rewrite <-Nat.add_succ_comm.
    apply IH; [done|]. intros k s Hk. apply Hstep. lia.
Qed.

Lemma length_ants_move_ant N r i sim sim' :
  Sim.move_ant N r i sim = Ok sim' →
  length (Sim.ants sim') = length (Sim.ants sim).
Proof.
  intros H. apply move_ant_Ok in H as (a & a' & g' & p' & s' & _ & _ & ->).
  simpl. apply length_insert.
Qed.

Lemma stepAll_Ok N rate rand sim sim' :
  Sim.stepAll N rate rand sim = Ok sim' →
  ∃ sim1, Sim.move_ants N rand sim = Ok sim1 ∧
    sim' = Sim.Build (Sim.grid sim1)
             (Sim.pheromones (Sim.decay_pheromones rate sim1))
             (Sim.pheromone_strengths (Sim.decay_pheromones rate sim1))
             (Sim.ants sim1) (Sim.steps sim1 + 1).
Proof.
  unfold Sim.stepAll. intros H. apply bind_Ok in H as (sim1 & H1 & H).
  injection H as <-. by exists sim1.
Qed.

Lemma decay_strengths rate sim :
  Sim.pheromone_strengths (Sim.decay_pheromones rate sim) =
  Np.map (Sim.decay_strength rate) (Sim.pheromone_strengths sim).
Proof.
  simpl. unfold Np.map. rewrite <-list_fmap_compose.
  apply list_fmap_ext. intros _ row _. simpl.
  by rewrite <-list_fmap_compose.
Qed.

(** ** Positions stay on the torus *)

Lemma unit_DIRECTIONS d dx dy :
  Py.getitem DIRECTIONS d = Ok (dx, dy) → Z.abs dx + Z.abs dy = 1.
Proof.
  unfold Py.getitem. intros H. apply bind_Ok in H as (k & Hk & H).
  apply from_option_Ok in H. apply index_lt in Hk as Hlt.
  destruct k as [|[|[|[|k]]]]; simpl in *; try lia; by injection H as <- <-.
Qed.

Lemma move_position N self r g p s self' g' p' s' :
  Ant.move N self r g p s = Ok (self', g', p', s') →
  ∃ dx dy,
    Py.getitem DIRECTIONS (Ant.direction self') = Ok (dx, dy) ∧
    Z.abs dx + Z.abs dy = 1 ∧
    Ant.x self' = (Ant.x self + dx) `mod` N ∧
    Ant.y self' = (Ant.y self + dy) `mod` N.
Proof.
  intros H.
  apply move_Ok in H
    as (c & o & st & dx & dy & _ & _ & _ & _ & _ & _ & Hd & _ & _ & ->).
  exists dx, dy. simpl. eauto using unit_DIRECTIONS.
Qed.

Lemma move_ants_positions N rand sim sim' :
  Sim.move_ants N rand sim = Ok sim' →
  length (Sim.ants sim') = length (Sim.ants sim) ∧
  ∀ i a, Sim.ants sim !! i = Some a →
    ∃ a' dx dy,
      Sim.ants sim' !! i = Some a' ∧
      Py.getitem DIRECTIONS (Ant.direction a') = Ok (dx, dy) ∧
      Z.abs dx + Z.abs dy = 1 ∧
      Ant.x a' = (Ant.x a + dx) `mod` N ∧
      Ant.y a' = (Ant.y a + dy) `mod` N.
Proof.
  intros H.
  apply (for_each_seq_inv (λ k s,
    length (Sim.ants s) = length (Sim.ants sim) ∧
    (∀ j, (k ≤ j)%nat → Sim.ants s !! j = Sim.ants sim !! j) ∧
    ∀ j a, (j < k)%nat → Sim.ants sim !! j = Some a →
      ∃ a' dx dy,
        Sim.ants s !! j = Some a' ∧
        Py.getitem DIRECTIONS (Ant.direction a') = Ok (dx, dy) ∧
        Z.abs dx + Z.abs dy = 1 ∧
        Ant.x a' = (Ant.x a + dx) `mod` N ∧
        Ant.y a' = (Ant.y a + dy) `mod` N)) in H.
  - destruct H as (Hlen & _ & H). split; [done|]. intros i a Ha.
    apply (H i); [|done]. apply lookup_lt_Some in Ha. lia.
  - split_and!; [done..|]. intros j a Hj. lia.
  - intros k s s' Hk (Hlen & Hrest & IH) Hbody. split.
    { by rewrite (length_ants_move_ant _ _ _ _ _ Hbody). }
    apply move_ant_Ok in Hbody as (a0 & a' & g' & p' & s1 & Ha0 & Hmove & ->).
    simpl. split.
    + intros j Hj. rewrite list_lookup_insert_ne by lia. apply Hrest. lia.
    + intros j a Hj Ha. destruct (decide (j = k)) as [Hjk|Hjk].
      * subst j. rewrite Hrest, Ha in Ha0 by done. injection Ha0 as <-.
        destruct (move_position _ _ _ _ _ _ _ _ _ _ Hmove)
          as (dx & dy & Hd & Hunit & Hx & Hy).
        exists a', dx, dy. split; [|done].
        apply list_lookup_insert_eq. lia.
      * rewrite list_lookup_insert_ne by done. apply IH; [lia|done].
Qed.

Lemma run_last N rate rand n sim sim' :
  Sim.run N rate rand (S n) sim = Ok sim' →
  ∃ prev, Sim.run N rate rand n sim = Ok prev ∧
          Sim.stepAll N rate (rand n) prev = Ok sim'.
Proof.
  revert rand sim. induction n as [|n IH]; intros rand sim H.
  - simpl in H. apply bind_Ok in H as (sim1 & Hstep & H). injection H as <-.
    by exists sim.
  - change (Sim.run N rate rand (S (S n)) sim) with
      (Sim.stepAll N rate (rand O) sim ≫=
         Sim.run N rate (λ k, rand (S k)) (S n)) in H.
    apply bind_Ok in H as (sim1 & Hstep & H).
    apply IH in H as (prev & Hrun & Hlast).
    exists prev. split; [|done].
    simpl. by rewrite (bind_of_Ok _ _ _ Hstep).
Qed.

(** C9: in a run on a grid of side [N > 0], every step takes every agent
    from its position before the step to that position plus the unit vector
    of the direction it has after the step, each coordinate taken modulo
    [N]; so after every step every agent has both coordinates in [0, N).
    The same holds of every single move that returns. *)
Theorem run_positions_on_torus N rate rand n sim sim' :
  0 < N → Sim.run N rate rand (S n) sim = Ok sim' →
  (∀ a, a ∈ Sim.ants sim' → 0 ≤ Ant.x a < N ∧ 0 ≤ Ant.y a < N) ∧
  (∃ prev,
     Sim.run N rate rand n sim = Ok prev ∧
     Sim.stepAll N rate (rand n) prev = Ok sim' ∧
     length (Sim.ants sim') = length (Sim.ants prev) ∧
     ∀ i a, Sim.ants prev !! i = Some a →
       ∃ a' dx dy,
         Sim.ants sim' !! i = Some a' ∧
         Py.getitem DIRECTIONS (Ant.direction a') = Ok (dx, dy) ∧
         Z.abs dx + Z.abs dy = 1 ∧
         Ant.x a' = (Ant.x a + dx) `mod` N ∧
         Ant.y a' = (Ant.y a + dy) `mod` N) ∧
  (∀ self r grid pheromones strengths self' grid' pheromones' strengths',
     Ant.move N self r grid pheromones strengths =
       Ok (self', grid', pheromones', strengths') →
     ∃ dx dy,
       Py.getitem DIRECTIONS (Ant.direction self') = Ok (dx, dy) ∧
       Z.abs dx + Z.abs dy = 1 ∧
       Ant.x self' = (Ant.x self + dx) `mod` N ∧
       Ant.y self' = (Ant.y self + dy) `mod` N ∧
       0 ≤ Ant.x self' < N ∧ 0 ≤ Ant.y self' < N).
Proof.
  intros HN H.
  apply run_last in H as (prev & Hrun & Hlast).
  apply stepAll_Ok in Hlast as Hstep. destruct Hstep as (sim1 & Hmove & ->).
  simpl. apply move_ants_positions in Hmove as [Hlen Hrel].
  split_and!.
  - intros a' Ha'. apply list_elem_of_lookup in Ha' as [i Hi].
    destruct (lookup_lt_is_Some_2 (Sim.ants prev) i) as [a Ha].
    { apply lookup_lt_Some in Hi. lia. }
    destruct (Hrel i a Ha) as (a'' & dx & dy & Hi' & _ & _ & Hx & Hy).
    rewrite Hi in Hi'. injection Hi' as <-. rewrite Hx, Hy.
    split; by apply Z.mod_pos_bound.
  - exists prev. split_and!; done.
  - intros self r g p s self' g' p' s' Hm.
    destruct (move_position _ _ _ _ _ _ _ _ _ _ Hm)
      as (dx & dy & Hd & Hunit & Hx & Hy).
    exists dx, dy. rewrite Hx, Hy.
    split_and!; try done; by apply Z.mod_pos_bound.
Qed.

Lemma run_positions_on_torus_witness :
  ∃ prev sim',
    Sim.run 10 DECAY_RATE (λ _ _, 0%float) 5 scenario = Ok prev ∧
    Sim.run 10 DECAY_RATE (λ _ _, 0%float) 6 scenario = Ok sim' ∧
    Sim.ants prev = [Ant.Build 5 0 0 1] ∧
    Sim.ants sim' = [Ant.Build 5 9 0 1] ∧
    (∀ a, a ∈ Sim.ants sim' → 0 ≤ Ant.x a < 10 ∧ 0 ≤ Ant.y a < 10) ∧
    ∃ a' dx dy,
      Sim.ants sim' !! 0%nat = Some a' ∧
      Py.getitem DIRECTIONS (Ant.direction a') = Ok (dx, dy) ∧
      Z.abs dx + Z.abs dy = 1 ∧
      Ant.x a' = (5 + dx) `mod` 10 ∧
      Ant.y a' = (0 + dy) `mod` 10.
Proof.
  eexists _, _.
  split; [vm_compute; reflexivity|]. split; [vm_compute; reflexivity|].
  split; [reflexivity|]. split; [reflexivity|].
  destruct (run_positions_on_torus 10 DECAY_RATE (λ _ _, 0%float) 5 scenario _
              ltac:(lia) ltac:(vm_compute; reflexivity))
    as (Hbounds & (prev & Hprev & _ & _ & Hrel) & _).
  split; [exact Hbounds|].
  apply (Hrel 0%nat (Ant.Build 5 0 0 1)).
  vm_compute in Hprev. injection Hprev as <-. reflexivity.
Defined.


(** ** A deposit and the decay of the same step *)

Lemma move_ant_deposit N r i sim sim' a :
  Sim.move_ant N r i sim = Ok sim' → Sim.ants sim !! i = Some a →
  Np.get (Sim.pheromone_strengths sim') (Ant.y a) (Ant.x a) = Ok 1%float.
Proof.
  intros H Ha.
  apply move_ant_Ok in H as (a0 & a' & g' & p' & s' & Ha0 & Hmove & ->).
  rewrite Ha in Ha0. injection Ha0 as <-.
  apply move_Ok in Hmove
    as (c & o & st & dx & dy & _ & _ & _ & _ & _ & Hs & _).
  simpl. eauto using get_set_eq.
Qed.

Lemma move_ant_full_strength_stable N r i sim sim' y x :
  Sim.move_ant N r i sim = Ok sim' →
  Np.get (Sim.pheromone_strengths sim) y x = Ok 1%float →
  Np.get (Sim.pheromone_strengths sim') y x = Ok 1%float.
Proof.
  intros H Hget.
  apply move_ant_Ok in H as (a & a' & g' & p' & s' & _ & Hmove & ->).
  apply move_Ok in Hmove
    as (c & o & st & dx & dy & _ & _ & _ & _ & _ & Hs & _).
  simpl. eauto using get_set_stable.
Qed.

(** Once all ants have moved, the cell each of them stood on is at full
    strength. *)
Lemma move_ants_deposit N rand sim sim' i a :
  Sim.move_ants N rand sim = Ok sim' → Sim.ants sim !! i = Some a →
  Np.get (Sim.pheromone_strengths sim') (Ant.y a) (Ant.x a) = Ok 1%float.
Proof.
  intros H Ha.
  apply (for_each_seq_inv (λ k s,
    ((k ≤ i)%nat → Sim.ants s !! i = Some a) ∧
    ((i < k)%nat →
       Np.get (Sim.pheromone_strengths s) (Ant.y a) (Ant.x a) = Ok 1%float)))
    in H.
  - apply H. apply lookup_lt_Some in Ha. lia.
  - split; [done|lia].
  - intros k s s' Hk [Hle Hlt] Hbody. split.
    + intros Hki.
      apply move_ant_Ok in Hbody as (a0 & a' & g' & p' & s1 & _ & _ & ->).
      simpl. rewrite list_lookup_insert_ne by lia. apply Hle. lia.
    + intros Hik. destruct (decide (i = k)) as [->|Hne].
      * apply (move_ant_deposit _ _ _ _ _ _ Hbody). by apply Hle.
      * apply (move_ant_full_strength_stable _ _ _ _ _ _ _ Hbody).
        apply Hlt. lia.
Qed.

(** C1, as the code has it: a cell that an agent deposits into during a
    call of [stepAll] is at strength 1 once the agents have moved, and the
    decay pass of the same call lowers it: when [stepAll] returns, the
    cell reads 0.8. *)
Theorem stepAll_decays_fresh_deposit N rand sim sim' i a :
  Sim.stepAll N DECAY_RATE rand sim = Ok sim' →
  Sim.ants sim !! i = Some a →
  (∃ sim1, Sim.move_ants N rand sim = Ok sim1 ∧
     Np.get (Sim.pheromone_strengths sim1) (Ant.y a) (Ant.x a) = Ok 1%float) ∧
  Np.get (Sim.pheromone_strengths sim') (Ant.y a) (Ant.x a) = Ok 0.8%float.
Proof.
  intros H Ha. apply stepAll_Ok in H as (sim1 & Hmove & ->).
  pose proof (move_ants_deposit _ _ _ _ _ _ Hmove Ha) as Hone.
  split; [by exists sim1|].
  cbn [Sim.pheromone_strengths]. rewrite decay_strengths.
  by apply (get_map (Sim.decay_strength DECAY_RATE)) in Hone.
Qed.

Lemma stepAll_decays_fresh_deposit_witness :
  ∃ sim',
    Sim.stepAll 10 DECAY_RATE (λ _, 0.9%float) scenario = Ok sim' ∧
    Np.get (Sim.pheromone_strengths sim') 5 5 = Ok 0.8%float.
Proof.
  eexists. split; [reflexivity|].
  apply (stepAll_decays_fresh_deposit 10 (λ _, 0.9%float) scenario _ 0%nat
           (Ant.Build 5 5 0 1)); reflexivity.
Defined.

(** C1 as the specification has it fails: in the scenario the agent
    deposits into the cell (5,5) during the call, and the cell is not at
    strength 1 when the call returns. *)
Lemma fresh_deposit_not_kept :
  ∃ sim',
    Sim.ants scenario !! 0%nat = Some (Ant.Build 5 5 0 1) ∧
    Sim.stepAll 10 DECAY_RATE (λ _, 0.9%float) scenario = Ok sim' ∧
    Np.get (Sim.pheromone_strengths sim') 5 5 ≠ Ok 1%float.
Proof.
  eexists. split; [reflexivity|]. split; [reflexivity|].
  intros H.
  apply (f_equal (λ res, match res with
                          | Ok s => (s =? 1)%float
                          | Raise _ => true
                          end)) in H.
  vm_compute in H. discriminate.
Qed.

(** ** The scenario *)

(** C2, as the code has it: in the scenario one call of [stepAll] with the
    draw 0.9 leaves the agent at (6,5) with direction 1, and the cell (5,5)
    with color 1, owner 1 and strength 0.8 (the strength 1 of the deposit
    less the decay of the same call). *)
Theorem scenario_first_step :
  ∃ sim',
    Sim.stepAll 10 DECAY_RATE (λ _, 0.9%float) scenario = Ok sim' ∧
    Sim.ants sim' = [Ant.Build 6 5 1 1] ∧
    Np.get (Sim.grid sim') 5 5 = Ok 1 ∧
    Np.get (Sim.pheromones sim') 5 5 = Ok 1 ∧
    Np.get (Sim.pheromone_strengths sim') 5 5 = Ok 0.8%float.
Proof. eexists. split; [reflexivity|]. by vm_compute. Qed.

(** C2 as the specification has it fails: the call returns, and the
    strength of the cell (5,5) is not 1 then. *)
Lemma scenario_first_step_not_full_strength :
  ∃ sim',
    Sim.stepAll 10 DECAY_RATE (λ _, 0.9%float) scenario = Ok sim' ∧
    ¬ (Sim.ants sim' = [Ant.Build 6 5 1 1] ∧
       Np.get (Sim.grid sim') 5 5 = Ok 1 ∧
       Np.get (Sim.pheromones sim') 5 5 = Ok 1 ∧
       Np.get (Sim.pheromone_strengths sim') 5 5 = Ok 1%float).
Proof.
  eexists. split; [reflexivity|].
  intros (_ & _ & _ & H).
  apply (f_equal (λ res, match res with
                          | Ok s => (s =? 1)%float
                          | Raise _ => true
                          end)) in H.
  vm_compute in H. discriminate.
Qed.

(** ** Shapes *)

Lemma shape_zeros {A} (zero : A) N a :
  Np.zeros zero N N = Ok a →
  Np.shape a = replicate (Z.to_nat N) (Z.to_nat N).
Proof.
  unfold Np.zeros. case_decide; [done|]. intros [= <-].
  unfold Np.shape. by rewrite fmap_replicate, length_replicate.
Qed.

Lemma get_zeros {A} (zero : A) N a i j v :
  Np.zeros zero N N = Ok a → Np.get a i j = Ok v → v = zero.
Proof.
  unfold Np.zeros. case_decide; [done|]. intros [= <-].
  rewrite get_Ok. intros (r & row & c & _ & Hrow & _ & Hv).
  apply lookup_replicate in Hrow as [-> _].
  by apply lookup_replicate in Hv as [-> _].
Qed.

(** An [n] by [n] array is readable at every index pair in range. *)
Lemma get_square {A} (a : list (list A)) n i j :
  Np.shape a = replicate n n →
  0 ≤ i < Z.of_nat n → 0 ≤ j < Z.of_nat n → ∃ v, Np.get a i j = Ok v.
Proof.
  intros Hs Hi Hj.
  assert (Hlen : length a = n).
  { apply (f_equal length) in Hs. unfold Np.shape in Hs.
    by rewrite length_fmap, length_replicate in Hs. }
  destruct (lookup_lt_is_Some_2 a (Z.to_nat i)) as [row Hrow]; [lia|].
  assert (Hrowlen : length row = n).
  { assert (H : Np.shape a !! Z.to_nat i = Some (length row)).
    { unfold Np.shape. by rewrite list_lookup_fmap, Hrow. }
    rewrite Hs in H. by apply lookup_replicate in H as [-> _]. }
  destruct (lookup_lt_is_Some_2 row (Z.to_nat j)) as [v Hv]; [lia|].
  exists v. apply get_Ok. exists (Z.to_nat i), row, (Z.to_nat j).
  rewrite Hlen, Hrowlen. split_and!; try done; apply index_nonneg; lia.
Qed.

Lemma init_Ok N d1 d2 sim :
  Sim.init N d1 d2 = Ok sim →
  ∃ g p s,
    Np.zeros 0 N N = Ok g ∧ Np.zeros 0 N N = Ok p ∧
    Np.zeros 0%float N N = Ok s ∧
    sim = Sim.Build g p s
            [ Ant.Build (N `div` 2) (N `div` 2) d1 1;
              Ant.Build (N `div` 2 + 10) (N `div` 2 + 10) d2 2 ] 0.
Proof.
  unfold Sim.init. intros H.
  apply bind_Ok in H as (g & Hg & H).
  apply bind_Ok in H as (p & Hp & H).
  apply bind_Ok in H as (s & Hs & H).
  injection H as <-. by exists g, p, s.
Qed.

Lemma init_shaped N d1 d2 sim :
  Sim.init N d1 d2 = Ok sim → Sim.shaped N sim.
Proof.
  intros H. apply init_Ok in H as (g & p & s & Hg & Hp & Hs & ->).
  split_and!; simpl; eauto using shape_zeros.
Qed.

Lemma move_ant_shaped N r i sim sim' :
  Sim.shaped N sim → Sim.move_ant N r i sim = Ok sim' → Sim.shaped N sim'.
Proof.
  intros (Hg & Hp & Hs) H.
  apply move_ant_Ok in H as (a & a' & g' & p' & s' & _ & Hmove & ->).
  apply move_Ok in Hmove
    as (c & o & st & dx & dy & _ & _ & _ & Hg' & Hp' & Hs' & _).
  apply shape_set in Hg', Hp', Hs'.
  split_and!; simpl; congruence.
Qed.

Lemma move_ants_shaped N rand sim sim' :
  Sim.shaped N sim → Sim.move_ants N rand sim = Ok sim' → Sim.shaped N sim'.
Proof.
  intros Hsh H.
  apply (for_each_seq_inv (λ _ s, Sim.shaped N s)) in H;
    eauto using move_ant_shaped.
Qed.

Lemma decay_shaped N rate sim :
  Sim.shaped N sim → Sim.shaped N (Sim.decay_pheromones rate sim).
Proof.
  intros (Hg & Hp & Hs). split_and!; simpl.
  - done.
  - rewrite shape_map2; [done|]. by rewrite !shape_map, Hp, Hs.
  - by rewrite !shape_map.
Qed.

Lemma stepAll_shaped N rate rand sim sim' :
  Sim.shaped N sim → Sim.stepAll N rate rand sim = Ok sim' →
  Sim.shaped N sim'.
Proof.
  intros Hsh H. apply stepAll_Ok in H as (sim1 & Hmove & ->).
  apply (move_ants_shaped _ _ _ _ Hsh) in Hmove.
  apply (decay_shaped N rate) in Hmove. exact Hmove.
Qed.

(** ** The owner of a cell without strength *)

Lemma decay_owner_cleared N rate sim :
  Sim.shaped N sim → Sim.owner_cleared (Sim.decay_pheromones rate sim).
Proof.
  intros (_ & Hp & Hs) i j s Hget Hzero. simpl in *.
  set (str := Np.map (Np.clip 0 1) _) in *.
  assert (Hshape : Np.shape (Sim.pheromones sim) = Np.shape str).
  { unfold str. by rewrite !shape_map, Hp, Hs. }
  destruct (get_same_shape _ (Sim.pheromones sim) _ _ _ (eq_sym Hshape) Hget)
    as [o Ho].
  rewrite (get_map2 _ _ _ _ _ _ _ Hshape Ho Hget). by rewrite Hzero.
Qed.

Lemma init_owner_cleared N d1 d2 sim :
  Sim.init N d1 d2 = Ok sim → Sim.owner_cleared sim.
Proof.
  intros H. pose proof (init_shaped _ _ _ _ H) as (_ & Hp & Hs).
  apply init_Ok in H as (g & p & s & _ & Hzp & _ & ->). simpl in *.
  intros i j st Hget _. simpl in *.
  destruct (get_same_shape s p i j st) as [o Ho]; [congruence|done|].
  by rewrite Ho, (get_zeros _ _ _ _ _ _ Hzp Ho).
Qed.

Lemma run_shaped_owner_cleared N rate rand n sim sim' :
  Sim.shaped N sim → Sim.owner_cleared sim →
  Sim.run N rate rand n sim = Ok sim' →
  Sim.shaped N sim' ∧ Sim.owner_cleared sim'.
Proof.
  revert rand sim. induction n as [|n IH]; intros rand sim Hsh Hown; simpl.
  - by intros [= <-].
  - intros H. apply bind_Ok in H as (sim1 & Hstep & H).
    apply (IH (λ k, rand (S k)) sim1); [by eapply stepAll_shaped| |done].
    apply stepAll_Ok in Hstep as (sim2 & Hmove & ->).
    apply (move_ants_shaped _ _ _ _ Hsh) in Hmove.
    apply (decay_owner_cleared N rate) in Hmove. exact Hmove.
Qed.

(** C7: in every state that a run reaches from the constructed one, a read
    of the owner of a cell whose strength is 0 yields 0. *)
Theorem reachable_owner_cleared N rate d1 d2 rand n sim0 sim i j s :
  Sim.init N d1 d2 = Ok sim0 →
  Sim.run N rate rand n sim0 = Ok sim →
  Np.get (Sim.pheromone_strengths sim) i j = Ok s →
  (s =? 0)%float = true →
  Np.get (Sim.pheromones sim) i j = Ok 0.
Proof.
  intros Hinit Hrun.
  destruct (run_shaped_owner_cleared N rate rand n sim0 sim) as [_ Hown];
    eauto using init_shaped, init_owner_cleared.
Qed.

Lemma reachable_owner_cleared_witness :
  ∃ sim0 sim,
    Sim.init 30 0 0 = Ok sim0 ∧
    Sim.run 30 DECAY_RATE (λ _ _, 0%float) 6 sim0 = Ok sim ∧
    Np.get (Sim.pheromone_strengths sim) 15 15 = Ok 0%float ∧
    Np.get (Sim.pheromones sim) 15 15 = Ok 0.
Proof.
  eexists _, _. split; [reflexivity|]. split; [vm_compute; reflexivity|].
  split; [vm_compute; reflexivity|].
  eapply (reachable_owner_cleared 30 DECAY_RATE 0 0 (λ _ _, 0%float) 6 _ _
            15 15 0%float).
  - reflexivity.
  - vm_compute. reflexivity.
  - vm_compute. reflexivity.
  - reflexivity.
Defined.

(** ** Pheromone ids *)

Lemma move_ant_ids N r i sim sim' :
  Sim.move_ant N r i sim = Ok sim' →
  Ant.pheromone <$> Sim.ants sim' = Ant.pheromone <$> Sim.ants sim.
Proof.
  intros H. apply move_ant_Ok in H as (a & a' & g' & p' & s' & Ha & Hmove & ->).
  apply move_Ok in Hmove as (c & o & st & dx & dy & _ & _ & _ & _ & _ & _ & _ & _ & _ & ->).
  simpl. rewrite list_fmap_insert. simpl.
  apply list_insert_id. by rewrite list_lookup_fmap, Ha.
Qed.

Lemma stepAll_ids N rate rand sim sim' :
  Sim.stepAll N rate rand sim = Ok sim' →
  Ant.pheromone <$> Sim.ants sim' = Ant.pheromone <$> Sim.ants sim.
Proof.
  intros H. apply stepAll_Ok in H as (sim1 & Hmove & ->). simpl.
  apply (for_each_seq_inv (λ _ s,
    Ant.pheromone <$> Sim.ants s = Ant.pheromone <$> Sim.ants sim)) in Hmove;
    [done..|].
  intros k s s' _ IH Hbody. by rewrite (move_ant_ids _ _ _ _ _ Hbody).
Qed.

Lemma run_ids N rate rand n sim sim' :
  Sim.run N rate rand n sim = Ok sim' →
  Ant.pheromone <$> Sim.ants sim' = Ant.pheromone <$> Sim.ants sim.
Proof.
  revert rand sim. induction n as [|n IH]; intros rand sim; simpl.
  - by intros [= <-].
  - intros H. apply bind_Ok in H as (sim1 & Hstep & H).
    by rewrite (IH _ _ H), (stepAll_ids _ _ _ _ _ Hstep).
Qed.

Lemma reachable_ants_tagged N rate d1 d2 rand n sim0 sim :
  Sim.init N d1 d2 = Ok sim0 → Sim.run N rate rand n sim0 = Ok sim →
  Sim.ants_tagged sim.
Proof.
  intros Hinit Hrun a Ha.
  apply (list_elem_of_fmap_2 Ant.pheromone) in Ha.
  rewrite (run_ids _ _ _ _ _ _ Hrun) in Ha.
  apply init_Ok in Hinit as (g & p & s & _ & _ & _ & ->). simpl in Ha.
  rewrite elem_of_cons, list_elem_of_singleton in Ha. lia.
Qed.

(** ** A cell without strength *)

(** C4, as the code has it: in every state that a run reaches from the
    constructed one, a cell whose strength is 0 has the owner 0 and every
    agent computes the probability 0.5 on it, as on an unscented cell.  The
    move itself does not look at the strength to tell whether a cell is
    scented: for a strength 0 with an owner other than 0 it computes
    [0.8 * 0] or [0.2 * 0], which is 0. *)
Theorem strength_zero_probability N rate d1 d2 rand n sim0 sim a i j s o :
  Sim.init N d1 d2 = Ok sim0 →
  Sim.run N rate rand n sim0 = Ok sim →
  a ∈ Sim.ants sim →
  Np.get (Sim.pheromone_strengths sim) i j = Ok s →
  (s =? 0)%float = true →
  Np.get (Sim.pheromones sim) i j = Ok o →
  o = 0 ∧ Ant.move_straight_prob a o s = 0.5%float ∧
  ∀ stale, stale ≠ 0 → Ant.move_straight_prob a stale 0%float = 0%float.
Proof.
  intros Hinit Hrun Ha Hs Hzero Ho.
  destruct (run_shaped_owner_cleared N rate rand n sim0 sim) as [_ Hown];
    eauto using init_shaped, init_owner_cleared.
  rewrite (Hown _ _ _ Hs Hzero) in Ho. injection Ho as <-.
  pose proof (reachable_ants_tagged _ _ _ _ _ _ _ _ Hinit Hrun a Ha) as Hid.
  unfold Ant.move_straight_prob. split_and!.
  - done.
  - rewrite decide_False by done. by rewrite decide_False by (by intros []).
  - intros stale Hstale. case_decide; [reflexivity|]. by rewrite decide_True.
Qed.

Lemma strength_zero_probability_witness :
  ∃ sim0 sim a,
    Sim.init 30 0 0 = Ok sim0 ∧
    Sim.run 30 DECAY_RATE (λ _ _, 0%float) 6 sim0 = Ok sim ∧
    a ∈ Sim.ants sim ∧
    Np.get (Sim.pheromone_strengths sim) 15 15 = Ok 0%float ∧
    Ant.move_straight_prob a 0 0%float = 0.5%float ∧
    Ant.move_straight_prob a 2 0%float = 0%float.
Proof.
  eexists _, _, (Ant.Build 15 9 0 1).
  split; [reflexivity|]. split; [vm_compute; reflexivity|].
  split; [apply list_elem_of_here|]. split; [vm_compute; reflexivity|].
  edestruct (strength_zero_probability 30 DECAY_RATE 0 0 (λ _ _, 0%float) 6)
    with (a := Ant.Build 15 9 0 1) (i := 15) (j := 15) (s := 0%float) (o := 0)
    as (_ & Hhalf & Hstale).
  - reflexivity.
  - vm_compute. reflexivity.
  - apply list_elem_of_here.
  - vm_compute. reflexivity.
  - reflexivity.
  - vm_compute. reflexivity.
  - split; [exact Hhalf|]. by apply Hstale.
Defined.

(** C4 as the specification has it fails: on a cell of strength 0 with the
    stale owner 2 the agent 1 computes the probability 0, not 0.5. *)
Lemma stale_owner_probability :
  (0 =? 0)%float = true ∧
  Ant.move_straight_prob (Ant.Build 5 5 0 1) 2 0%float ≠ 0.5%float.
Proof.
  split; [reflexivity|]. intros H.
  apply (f_equal (λ p, (p =? 0.5)%float)) in H. vm_compute in H. discriminate.
Qed.

(** ** Construction and the steps after it *)

Lemma decay_rate_source : Py.truediv 1 PHEROMONE_DECAY_STEPS = Ok DECAY_RATE.
Proof. reflexivity. Qed.

(** True division rounds the quotient of the two integers, once: operands
    beyond 53 bits are not rounded first. *)
Lemma truediv_rounds_once :
  Py.truediv 1 (2 ^ 64) = Ok 0x1p-64%float ∧
  Py.truediv (2 ^ 53 + 1) 1 = Ok 0x1p+53%float ∧
  Py.truediv 0 (-5) = Ok (-0)%float ∧
  Py.truediv (2 ^ 1024) 1 = Raise OverflowError.
Proof. split_and!; reflexivity. Qed.

Lemma zeros_is_Ok {A} (zero : A) N :
  0 ≤ N → Np.zeros zero N N =
          Ok (replicate (Z.to_nat N) (replicate (Z.to_nat N) zero)).
Proof. intros H. unfold Np.zeros. rewrite decide_False; [done|lia]. Qed.

Lemma init_is_Ok N d1 d2 :
  21 ≤ N → 0 ≤ d1 < 4 → 0 ≤ d2 < 4 →
  ∃ sim, Sim.init N d1 d2 = Ok sim ∧ Sim.shaped N sim ∧ Sim.ants_on_grid N sim.
Proof.
  intros HN Hd1 Hd2. unfold Sim.init.
  rewrite !zeros_is_Ok by lia. simpl. eexists. split; [reflexivity|]. split.
  - eapply (init_shaped N d1 d2). unfold Sim.init.
    rewrite !zeros_is_Ok by lia. reflexivity.
  - intros a. simpl. rewrite elem_of_cons, list_elem_of_singleton.
    assert (0 ≤ N `div` 2 ∧ N `div` 2 + 10 < N).
    { split; [apply Z.div_pos; lia|].
      pose proof (Z.div_mod N 2 ltac:(lia)).
      pose proof (Z.mod_pos_bound N 2 ltac:(lia)). lia. }
    intros [->| ->]; simpl; lia.
Qed.

Lemma move_ant_is_Ok N r i sim :
  0 < N → Sim.shaped N sim → Sim.ants_on_grid N sim →
  (i < length (Sim.ants sim))%nat →
  ∃ sim', Sim.move_ant N r i sim = Ok sim' ∧
          Sim.ants_on_grid N sim' ∧
          length (Sim.ants sim') = length (Sim.ants sim).
Proof.
  intros HN (Hg & Hp & Hs) Hants Hi.
  destruct (lookup_lt_is_Some_2 _ _ Hi) as [a Ha].
  destruct (Hants a) as (Hx & Hy & Hd & Hid);
    [by eapply list_elem_of_lookup_2|].
  destruct (get_square _ _ (Ant.y a) (Ant.x a) Hg) as [c Hc]; [lia..|].
  destruct (get_square _ _ (Ant.y a) (Ant.x a) Hp) as [o Ho]; [lia..|].
  destruct (get_square _ _ (Ant.y a) (Ant.x a) Hs) as [st Hst]; [lia..|].
  destruct (move_is_Ok N a r _ _ _ _ _ _ ltac:(lia) Hd Hid Hc Ho Hst)
    as (dx & dy & g' & p' & s' & _ & Hmove).
  unfold Sim.move_ant. rewrite Ha. simpl. rewrite Hmove. simpl.
  eexists. split; [reflexivity|]. simpl. split; [|apply length_insert].
  intros b Hb. apply list_elem_of_lookup in Hb as [k Hk]. simpl in Hk.
  destruct (decide (k = i)) as [->|Hne].
  - rewrite list_lookup_insert_eq in Hk by done. injection Hk as <-. simpl.
    split_and!; try (by apply Z.mod_pos_bound); try lia.
    + by apply new_direction_range.
    + by apply new_direction_range.
  - rewrite list_lookup_insert_ne in Hk by done.
    apply Hants. by eapply list_elem_of_lookup_2.
Qed.

Lemma stepAll_is_Ok N rate rand sim :
  0 < N → Sim.shaped N sim → Sim.ants_on_grid N sim →
  ∃ sim', Sim.stepAll N rate rand sim = Ok sim' ∧
          Sim.shaped N sim' ∧ Sim.ants_on_grid N sim'.
Proof.
  intros HN Hsh Hants.
  destruct (for_each_seq_total
    (λ _ s, Sim.shaped N s ∧ Sim.ants_on_grid N s ∧
            length (Sim.ants s) = length (Sim.ants sim))
    (λ i, Sim.move_ant N (rand i) i) 0 (length (Sim.ants sim)) sim)
    as (sim1 & Hloop & Hsh1 & Hants1 & _).
  - done.
  - intros k s Hk (Hshs & Hantss & Hlen).
    destruct (move_ant_is_Ok N (rand k) k s) as (s' & Hmove & Hon & Hlen');
      [done..|lia|].
    exists s'. split_and!; [done|by eapply move_ant_shaped|done|congruence].
  - unfold Sim.stepAll, Sim.move_ants. rewrite Hloop. simpl.
    eexists. split; [reflexivity|]. split.
    + by apply (decay_shaped N rate) in Hsh1.
    + exact Hants1.
Qed.

Lemma run_is_Ok N rate rand n sim :
  0 < N → Sim.shaped N sim → Sim.ants_on_grid N sim →
  ∃ sim', Sim.run N rate rand n sim = Ok sim'.
Proof.
  intros HN. revert rand sim.
  induction n as [|n IH]; intros rand sim Hsh Hants; simpl.
  - by exists sim.
  - destruct (stepAll_is_Ok N rate (rand O) sim) as (sim1 & -> & Hsh1 & Hants1);
      [done..|].
    simpl. by apply IH.
Qed.

(** C5, as the code has it: nothing is validated and no configuration
    error exists; with the constants of the source and initial directions in
    [0..3], loading the module and constructing the simulation succeed, and
    so does every sequence of steps after that, whatever is drawn. *)
Theorem construct_and_run_succeed d1 d2 rand n :
  0 ≤ d1 < 4 → 0 ≤ d2 < 4 →
  ∃ sim0 sim,
    Sim.construct GRID_SIZE PHEROMONE_DECAY_STEPS d1 d2 = Ok (DECAY_RATE, sim0) ∧
    Sim.run GRID_SIZE DECAY_RATE rand n sim0 = Ok sim.
Proof.
  intros Hd1 Hd2.
  destruct (init_is_Ok GRID_SIZE d1 d2) as (sim0 & Hinit & Hsh & Hants);
    [by unfold GRID_SIZE|done..|].
  destruct (run_is_Ok GRID_SIZE DECAY_RATE rand n sim0) as [sim Hrun];
    [by unfold GRID_SIZE|done..|].
  exists sim0, sim. split; [|done].
  unfold Sim.construct.
  by rewrite (bind_of_Ok _ _ _ decay_rate_source), (bind_of_Ok _ _ _ Hinit).
Qed.

Lemma construct_and_run_succeed_witness :
  ∃ sim0 sim,
    Sim.construct GRID_SIZE PHEROMONE_DECAY_STEPS 0 3 = Ok (DECAY_RATE, sim0) ∧
    Sim.run GRID_SIZE DECAY_RATE (λ _ _, 0.9%float) 100 sim0 = Ok sim.
Proof.
  apply (construct_and_run_succeed 0 3 (λ _ _, 0.9%float) 100); lia.
Defined.

(** C5 as the specification has it fails on each count.  With
    [GRID_SIZE = 0] (and also with [PHEROMONE_DECAY_STEPS = -5]) the
    construction returns a simulation; with [GRID_SIZE = -1] and with
    [PHEROMONE_DECAY_STEPS = 0] what is raised is numpy's [ValueError] and
    Python's [ZeroDivisionError]; and with the valid [GRID_SIZE = 10] the
    construction succeeds and the first step raises an [IndexError], the
    second ant being placed at (15,15). *)
Lemma construct_validates_nothing :
  (∃ rate sim, Sim.construct 0 5 0 0 = Ok (rate, sim)) ∧
  (∃ rate sim, Sim.construct 10 (-5) 0 0 = Ok (rate, sim)) ∧
  Sim.construct (-1) 5 0 0 = Raise ValueError ∧
  Sim.construct 10 0 0 0 = Raise ZeroDivisionError ∧
  (∃ rate sim,
     Sim.construct 10 5 0 0 = Ok (rate, sim) ∧
     Sim.stepAll 10 rate (λ _, 0.9%float) sim = Raise IndexError).
Proof.
  split_and!; try reflexivity.
  - by eexists _, _.
  - by eexists _, _.
  - eexists _, _. split; reflexivity.
Qed.

(** ** The strengths that occur, and how a deposit decays *)

Lemma decay_strength_levels :
  Sim.decay_strength DECAY_RATE <$> Sim.levels =
  [ 0; 0; 0x1p-54; 0.20000000000000007; 0.4000000000000001;
    0.6000000000000001; 0.8 ]%float.
Proof. reflexivity. Qed.

Lemma decay_strength_level s :
  s ∈ Sim.levels → Sim.decay_strength DECAY_RATE s ∈ Sim.levels.
Proof.
  intros H.
  apply (list_elem_of_fmap_2 (Sim.decay_strength DECAY_RATE)) in H.
  rewrite decay_strength_levels in H. unfold Sim.levels.
  rewrite !elem_of_cons in *. rewrite elem_of_nil in H. tauto.
Qed.

Lemma level_bounds s :
  s ∈ Sim.levels → (0 <=? s)%float = true ∧ (s <=? 1)%float = true.
Proof.
  unfold Sim.levels. rewrite !elem_of_cons, elem_of_nil.
  intros [->|[->|[->|[->|[->|[->|[->|[]]]]]]]]; by split.
Qed.

Lemma get_set_cases {A} (a a' : list (list A)) i j i' j' v w :
  Np.set a i j v = Ok a' → Np.get a' i' j' = Ok w →
  w = v ∨ Np.get a i' j' = Ok w.
Proof.
  intros Hset Hget.
  destruct (decide (Np.locate a i' j' = Np.locate a i j)) as [Heq|Hne].
  - left. destruct (set_locate _ _ _ _ _ Hset) as (r & c & Hloc).
    rewrite Hloc in Heq. apply locate_Ok in Heq as (row' & Hr' & Hrow' & Hc').
    apply set_Ok in Hset as (r0 & row & c0 & Hr & Hrow & Hc & ->).
    apply locate_Ok in Hloc as (row0 & Hr0 & Hrow0 & Hc0).
    rewrite Hr in Hr0. injection Hr0 as ->.
    rewrite Hrow in Hrow0, Hrow'. injection Hrow0 as <-. injection Hrow' as <-.
    rewrite Hc in Hc0. injection Hc0 as ->.
    apply get_Ok in Hget as (r1 & row1 & c1 & Hr1 & Hrow1 & Hc1 & Hw).
    rewrite length_insert, Hr' in Hr1. injection Hr1 as <-.
    rewrite list_lookup_insert_eq in Hrow1 by eauto using index_lt.
    injection Hrow1 as <-.
    rewrite length_insert, Hc' in Hc1. injection Hc1 as <-.
    rewrite list_lookup_insert_eq in Hw by eauto using index_lt.
    congruence.
  - right. by rewrite <-(get_set_ne _ _ _ _ _ _ _ Hset Hne).
Qed.

Lemma move_ant_levels N r i sim sim' :
  Sim.strengths_on_levels sim → Sim.move_ant N r i sim = Ok sim' →
  Sim.strengths_on_levels sim'.
Proof.
  intros Hlev H.
  apply move_ant_Ok in H as (a & a' & g' & p' & s' & _ & Hmove & ->).
  apply move_Ok in Hmove
    as (c & o & st & dx & dy & _ & _ & _ & _ & _ & Hs & _).
  intros i' j' w Hw. simpl in Hw.
  destruct (get_set_cases _ _ _ _ _ _ _ _ Hs Hw) as [->|Hold].
  - unfold Sim.levels. rewrite !elem_of_cons. tauto.
  - by apply (Hlev i' j').
Qed.

Lemma stepAll_levels N rand sim sim' :
  Sim.strengths_on_levels sim → Sim.stepAll N DECAY_RATE rand sim = Ok sim' →
  Sim.strengths_on_levels sim'.
Proof.
  intros Hlev H. apply stepAll_Ok in H as (sim1 & Hmove & ->).
  apply (for_each_seq_inv (λ _ s, Sim.strengths_on_levels s)) in Hmove;
    [|done|eauto using move_ant_levels].
  intros i j s Hs. cbn [Sim.pheromone_strengths] in Hs.
  rewrite decay_strengths in Hs.
  apply get_map_inv in Hs as (s0 & Hs0 & ->).
  apply decay_strength_level. by apply (Hmove i j).
Qed.

(** In every state that a run reaches from the constructed one, every
    strength is one of the seven levels, and so within [0, 1]. *)
Lemma reachable_strength_bounds N d1 d2 rand n sim0 sim i j s :
  Sim.init N d1 d2 = Ok sim0 →
  Sim.run N DECAY_RATE rand n sim0 = Ok sim →
  Np.get (Sim.pheromone_strengths sim) i j = Ok s →
  s ∈ Sim.levels ∧ (0 <=? s)%float = true ∧ (s <=? 1)%float = true.
Proof.
  intros Hinit Hrun Hs.
  assert (Hlev : Sim.strengths_on_levels sim).
  { assert (H0 : Sim.strengths_on_levels sim0).
    { apply init_Ok in Hinit as (g & p & st & _ & _ & Hz & ->).
      intros i' j' w Hw. simpl in Hw.
      rewrite (get_zeros _ _ _ _ _ _ Hz Hw). apply list_elem_of_here. }
    clear Hinit Hs. revert rand sim0 H0 Hrun.
    induction n as [|n IH]; intros rand sim0 H0; simpl.
    - by intros [= <-].
    - intros H. apply bind_Ok in H as (sim1 & Hstep & H).
      apply (IH (λ k, rand (S k)) sim1); [|done]. by eapply stepAll_levels. }
  split; [by apply (Hlev i j)|]. apply level_bounds. by apply (Hlev i j).
Qed.

Lemma get_iter_decay rate n sim i j s :
  Np.get (Sim.pheromone_strengths sim) i j = Ok s →
  Np.get (Sim.pheromone_strengths
            (Nat.iter n (Sim.decay_pheromones rate) sim)) i j =
  Ok (Nat.iter n (Sim.decay_strength rate) s).
Proof.
  intros Hs. induction n as [|n IH]; [done|].
  cbn [Nat.iter nat_rect]. rewrite decay_strengths.
  by apply (get_map (Sim.decay_strength rate)).
Qed.

(** C3, where the code departs from it: a cell at full strength is, after
    five consecutive calls of [decay_pheromones] with the rate [1/5], at
    [2^-54] (about [5.55e-17]) and not at zero: the binary64 differences
    [0.8 - 0.2], [0.6000000000000001 - 0.2], ... are rounded.  The sixth call
    brings it to zero. *)
Theorem five_decays_leave_residue sim i j :
  Np.get (Sim.pheromone_strengths sim) i j = Ok 1%float →
  let decayed n := Nat.iter n (Sim.decay_pheromones DECAY_RATE) sim in
  Np.get (Sim.pheromone_strengths (decayed 5%nat)) i j = Ok 0x1p-54%float ∧
  (0x1p-54 =? 0)%float = false ∧
  (0 <? 0x1p-54)%float = true ∧
  Np.get (Sim.pheromone_strengths (decayed 6%nat)) i j = Ok 0%float.
Proof.
  intros Hs decayed. unfold decayed.
  rewrite !(get_iter_decay _ _ _ _ _ _ Hs). by split_and!.
Qed.

Lemma five_decays_leave_residue_witness :
  Sim.move_ants 10 (λ _, 0.9%float) scenario = Ok scenario_deposit ∧
  Np.get (Sim.pheromone_strengths scenario_deposit) 5 5 = Ok 1%float ∧
  let decayed n :=
    Nat.iter n (Sim.decay_pheromones DECAY_RATE) scenario_deposit in
  Np.get (Sim.pheromone_strengths (decayed 5%nat)) 5 5 = Ok 0x1p-54%float ∧
  Np.get (Sim.pheromones (decayed 5%nat)) 5 5 = Ok 1 ∧
  Np.get (Sim.pheromone_strengths (decayed 6%nat)) 5 5 = Ok 0%float ∧
  Np.get (Sim.pheromones (decayed 6%nat)) 5 5 = Ok 0.
Proof.
  split; [reflexivity|]. split; [reflexivity|]. intros decayed.
  destruct (five_decays_leave_residue scenario_deposit 5 5 eq_refl)
    as (H5 & _ & _ & H6).
  split_and!; [exact H5|by vm_compute|exact H6|by vm_compute].
Defined.

(** ** The own trail against no trail: [0.8 * s] and [0.5] in binary64 *)

Lemma digits2_bounds (p : positive) :
  2 ^ (Zpos (digits2_pos p) - 1) ≤ Zpos p < 2 ^ Zpos (digits2_pos p).
Proof.
  induction p as [p IH|p IH|]; simpl digits2_pos.
  - rewrite Pos2Z.inj_succ. change (Z.pos p~1) with (2 * Z.pos p + 1).
    replace (Z.succ (Zpos (digits2_pos p)) - 1) with (Z.succ (Zpos (digits2_pos p) - 1)) by lia.
    rewrite !Z.pow_succ_r by lia.
    revert IH. generalize (2 ^ (Z.pos (digits2_pos p) - 1)) (2 ^ Z.pos (digits2_pos p)).
    intros a b [Ha Hb]. split; lia.
  - rewrite Pos2Z.inj_succ. change (Z.pos p~0) with (2 * Z.pos p).
    replace (Z.succ (Zpos (digits2_pos p)) - 1) with (Z.succ (Zpos (digits2_pos p) - 1)) by lia.
    rewrite !Z.pow_succ_r by lia.
    revert IH. generalize (2 ^ (Z.pos (digits2_pos p) - 1)) (2 ^ Z.pos (digits2_pos p)).
    intros a b [Ha Hb]. split; lia.
  - simpl. lia.
Qed.

Lemma digits2_unique (p : positive) (k : Z) :
  2 ^ (k - 1) ≤ Zpos p < 2 ^ k → Zpos (digits2_pos p) = k.
Proof.
  intros [Hlo Hhi]. pose proof (digits2_bounds p) as [Hlo' Hhi'].
  assert (0 < k).
  { destruct (Z.le_gt_cases k 0) as [Hk|]; [|done].
    destruct k; [simpl in Hhi; lia|lia|].
    rewrite Z.pow_neg_r in Hhi by lia. lia. }
  destruct (Z.lt_trichotomy (Zpos (digits2_pos p)) k) as [Hlt|[Heq|Hgt]]; [|done|].
  - assert (2 ^ Zpos (digits2_pos p) ≤ 2 ^ (k - 1)) by (apply Z.pow_le_mono_r; lia). lia.
  - assert (2 ^ k ≤ 2 ^ (Zpos (digits2_pos p) - 1)) by (apply Z.pow_le_mono_r; lia). lia.
Qed.

Lemma shr_1_m mrs : 0 ≤ shr_m mrs → shr_m (shr_1 mrs) = shr_m mrs / 2.
Proof.
  destruct mrs as [m r s]. simpl. intros Hm.
  destruct m as [|[p|p|]|]; simpl; [reflexivity| | |reflexivity|lia].
  - apply (Z.div_unique _ _ _ 1); lia.
  - apply (Z.div_unique _ _ _ 0); lia.
Qed.

Lemma iter_shr_m p mrs :
  0 ≤ shr_m mrs → shr_m (SpecFloat.iter_pos shr_1 p mrs) = shr_m mrs / 2 ^ Zpos p.
Proof.
  revert mrs. induction p as [p IH|p IH|]; intros mrs Hm; simpl SpecFloat.iter_pos.
  - assert (H1 : 0 ≤ shr_m (shr_1 mrs)).
    { rewrite shr_1_m by done. by apply Z.div_pos. }
    assert (H2 : 0 ≤ shr_m (SpecFloat.iter_pos shr_1 p (shr_1 mrs))).
    { rewrite IH by done. apply Z.div_pos; [done|]. by apply Z.pow_pos_nonneg. }
    rewrite !IH, shr_1_m by done.
    rewrite !Z.div_div by (try apply Z.pow_pos_nonneg; lia).
    f_equal. rewrite Pos2Z.inj_xI, <-Z.pow_add_r, <-Z.pow_succ_r by lia. f_equal. lia.
  - assert (H2 : 0 ≤ shr_m (SpecFloat.iter_pos shr_1 p mrs)).
    { rewrite IH by done. apply Z.div_pos; [done|]. by apply Z.pow_pos_nonneg. }
    rewrite !IH by done.
    rewrite !Z.div_div by (try apply Z.pow_pos_nonneg; lia).
    f_equal. rewrite Pos2Z.inj_xO, <-Z.pow_add_r by lia. f_equal. lia.
  - by rewrite shr_1_m.
Qed.

Lemma round_nearest_even_bounds q l :
  q ≤ round_nearest_even q l ≤ q + 1.
Proof.
  destruct l as [|[]]; simpl; try lia. destruct (Z.even q); lia.
Qed.

Lemma fexp_eq e : fexp prec emax e = Z.max (e - 53) (-1074).
Proof. reflexivity. Qed.

Lemma Zdigits2_small q : 0 ≤ q < 2 ^ 53 → Zdigits2 q ≤ 53.
Proof.
  intros [H0 H1]. destruct q as [|p|p]; simpl; [lia| |lia].
  pose proof (digits2_bounds p) as [Hlo _].
  destruct (Z.le_gt_cases (Zpos (digits2_pos p)) 53) as [|Hgt]; [done|].
  assert (2 ^ 53 ≤ 2 ^ (Zpos (digits2_pos p) - 1)) by (apply Z.pow_le_mono_r; lia).
  lia.
Qed.

Lemma shr_nonpos mrs e n : n ≤ 0 → shr mrs e n = (mrs, e).
Proof. destruct n; [done|lia|done]. Qed.

Lemma round_aux_shift sx (P : positive) E :
  let e1 := fexp prec emax (Zpos (digits2_pos P) + E) in
  E < e1 →
  ∃ q',
    Zpos P / 2 ^ (e1 - E) ≤ q' ≤ Zpos P / 2 ^ (e1 - E) + 1 ∧
    binary_round_aux prec emax sx (Zpos P) E loc_Exact = round_finish sx q' e1.
Proof.
  intros e1 He1.
  unfold binary_round_aux, shr_fexp at 1.
  change (Zdigits2 (Zpos P)) with (Zpos (digits2_pos P)). fold e1.
  destruct (e1 - E) as [|n1|n1] eqn:Hn1; [lia| |lia].
  cbn [shr shr_record_of_loc]. rewrite <-Hn1.
  replace (E + (e1 - E)) with e1 by lia.
  set (mrs := SpecFloat.iter_pos shr_1 n1 _).
  exists (round_nearest_even (shr_m mrs) (loc_of_shr_record mrs)).
  split; [|reflexivity].
  assert (Hq : shr_m mrs = Zpos P / 2 ^ (e1 - E)).
  { unfold mrs. rewrite iter_shr_m by done. by rewrite Hn1. }
  rewrite <-Hq. apply round_nearest_even_bounds.
Qed.

Lemma shifted_lt (P : positive) E :
  let e1 := fexp prec emax (Zpos (digits2_pos P) + E) in
  E < e1 → 0 ≤ Zpos P / 2 ^ (e1 - E) < 2 ^ 53.
Proof.
  intros e1 He1. split.
  - apply Z.div_pos; [lia|]. apply Z.pow_pos_nonneg; lia.
  - apply Z.div_lt_upper_bound; [apply Z.pow_pos_nonneg; lia|].
    rewrite <-Z.pow_add_r by lia.
    pose proof (digits2_bounds P) as [_ HP].
    assert (2 ^ Zpos (digits2_pos P) ≤ 2 ^ (e1 - E + 53)); [|lia].
    apply Z.pow_le_mono_r; [lia|]. unfold e1. rewrite fexp_eq. lia.
Qed.

Lemma round_finish_small sx q' e1 :
  0 ≤ q' < 2 ^ 53 → -1074 ≤ e1 →
  round_finish sx q' e1 =
    match q' with
    | Z0 => S754_zero sx
    | Zpos m => if e1 <=? 971 then S754_finite sx m e1 else S754_infinity sx
    | Zneg _ => S754_nan
    end.
Proof.
  intros Hq He. unfold round_finish, shr_fexp. rewrite shr_nonpos.
  - simpl shr_m. destruct q'; reflexivity.
  - pose proof (Zdigits2_small q' Hq). rewrite fexp_eq. lia.
Qed.

Lemma round_finish_carry sx e1 :
  -1074 ≤ e1 →
  round_finish sx (2 ^ 53) e1 =
    if e1 + 1 <=? 971 then S754_finite sx 4503599627370496 (e1 + 1)
    else S754_infinity sx.
Proof.
  intros He. unfold round_finish, shr_fexp.
  change (Zdigits2 (2 ^ 53)) with 54.
  rewrite fexp_eq. replace (Z.max (54 + e1 - 53) (-1074) - e1) with 1 by lia.
  reflexivity.
Qed.

Lemma round_aux_cases sx (P : positive) E :
  let e1 := fexp prec emax (Zpos (digits2_pos P) + E) in
  E < e1 →
  ∃ q',
    Zpos P / 2 ^ (e1 - E) ≤ q' ≤ Zpos P / 2 ^ (e1 - E) + 1 ∧
    ((q' < 2 ^ 53 ∧
      binary_round_aux prec emax sx (Zpos P) E loc_Exact =
        match q' with
        | Z0 => S754_zero sx
        | Zpos m => if e1 <=? 971 then S754_finite sx m e1 else S754_infinity sx
        | Zneg _ => S754_nan
        end) ∨
     (q' = 2 ^ 53 ∧
      binary_round_aux prec emax sx (Zpos P) E loc_Exact =
        if e1 + 1 <=? 971 then S754_finite sx 4503599627370496 (e1 + 1)
        else S754_infinity sx)).
Proof.
  intros e1 He1.
  destruct (round_aux_shift sx P E He1) as (q' & Hq' & ->).
  pose proof (shifted_lt P E He1) as Hq. fold e1 in Hq', Hq.
  assert (Hemin : -1074 ≤ e1) by (unfold e1; rewrite fexp_eq; lia).
  exists q'. split; [done|].
  destruct (Z.eq_dec q' (2 ^ 53)) as [->|Hne]; [right|left].
  - split; [done|]. by apply round_finish_carry.
  - split; [lia|]. apply round_finish_small; [lia|done].
Qed.

(** The three binary64 numbers involved, as mantissa and exponent. *)
Lemma Prim2SF_0_8 : Prim2SF 0.8 = S754_finite false 7205759403792794 (-53).
Proof. reflexivity. Qed.
Lemma Prim2SF_0_5 : Prim2SF 0.5 = S754_finite false 4503599627370496 (-53).
Proof. reflexivity. Qed.
Lemma Prim2SF_0_625 : Prim2SF 0.625 = S754_finite false 5629499534213120 (-53).
Proof. reflexivity. Qed.

Lemma valid_finite s m e :
  valid_binary (S754_finite s m e) = true →
  Zpos m < 2 ^ 53 ∧ -1074 ≤ e ≤ 971 ∧ (-1074 < e → 2 ^ 52 ≤ Zpos m).
Proof.
  unfold SpecFloat.valid_binary, bounded, canonical_mantissa.
  rewrite andb_true_iff, Z.eqb_eq, Z.leb_le, fexp_eq.
  change (emax - prec) with 971. intros [Hc He].
  pose proof (digits2_bounds m) as [Hlo Hhi].
  split_and!; try lia.
  - assert (2 ^ Zpos (digits2_pos m) ≤ 2 ^ 53); [|lia].
    apply Z.pow_le_mono_r; lia.
  - intros Hsub. replace (Zpos (digits2_pos m)) with 53 in Hlo by lia. exact Hlo.
Qed.

Lemma below_half_ltb r :
  below_half r →
  SFltb r (S754_finite false 4503599627370496 (-53)) = true ∧
  SFltb (S754_finite false 4503599627370496 (-53)) r = false.
Proof.
  intros [->|(m & e & -> & He)]; [done|].
  unfold SFltb, SFcompare.
  rewrite (proj2 (Z.compare_lt_iff e (-53))) by lia.
  rewrite (proj2 (Z.compare_gt_iff (-53) e)) by lia. done.
Qed.

Lemma above_half_ltb r :
  above_half r → SFltb (S754_finite false 4503599627370496 (-53)) r = true.
Proof.
  intros [->|(m & e & -> & [He|[-> Hm]])]; [done| |].
  - unfold SFltb, SFcompare.
    by rewrite (proj2 (Z.compare_lt_iff (-53) e)) by lia.
  - unfold SFltb, SFcompare. rewrite Z.compare_refl.
    change (Pos.compare_cont Eq ?a ?b) with (Pos.compare a b).
    by rewrite (proj2 (Pos.compare_lt_iff 4503599627370496 m)) by lia.
Qed.

Lemma product_digits s m e :
  valid_binary (S754_finite s m e) = true →
  let d := Zpos (digits2_pos (7205759403792794 * m)) in
  53 ≤ d ≤ 106 ∧ (-1074 < e → 105 ≤ d) ∧
  -53 + e < fexp prec emax (d + (-53 + e)).
Proof.
  intros Hv d. apply valid_finite in Hv as (Hm & He & Hnorm).
  pose proof (digits2_bounds (7205759403792794 * m)) as [Hlo Hhi]. fold d in Hlo, Hhi.
  rewrite Pos2Z.inj_mul in Hlo, Hhi.
  change (2 ^ 53) with 9007199254740992 in Hm.
  change (2 ^ 52) with 4503599627370496 in Hnorm.
  assert (Hd1 : 53 ≤ d).
  { destruct (Z.le_gt_cases 53 d) as [|Hlt]; [done|].
    assert (2 ^ d ≤ 2 ^ 52) by (apply Z.pow_le_mono_r; lia).
    change (2 ^ 52) with 4503599627370496 in *. lia. }
  assert (Hd2 : d ≤ 106).
  { destruct (Z.le_gt_cases d 106) as [|Hlt]; [done|].
    assert (2 ^ 106 ≤ 2 ^ (d - 1)) by (apply Z.pow_le_mono_r; lia).
    change (2 ^ 106) with 81129638414606681695789005144064 in *. lia. }
  assert (Hd3 : -1074 < e → 105 ≤ d).
  { intros Hn. specialize (Hnorm Hn).
    destruct (Z.le_gt_cases 105 d) as [|Hlt]; [done|].
    assert (2 ^ d ≤ 2 ^ 104) by (apply Z.pow_le_mono_r; lia).
    change (2 ^ 104) with 20282409603651670423947251286016 in *. lia. }
  split_and!; try done. rewrite fexp_eq.
  destruct (Z.eq_dec e (-1074)) as [->|]; [lia|].
  specialize (Hd3 ltac:(lia)). lia.
Qed.

Lemma digits_of_range (p : positive) (k : Z) lo hi :
  lo = 2 ^ (k - 1) → hi = 2 ^ k → lo ≤ Zpos p < hi → Zpos (digits2_pos p) = k.
Proof. intros -> ->. apply digits2_unique. Qed.

Lemma product_below_half m e :
  valid_binary (S754_finite false m e) = true →
  e < -53 ∨ e = -53 ∧ Zpos m < 5629499534213120 →
  below_half
    (binary_round_aux prec emax false (Zpos (7205759403792794 * m)) (-53 + e)
       loc_Exact).
Proof.
  intros Hv Hlt.
  pose proof (product_digits _ m e Hv) as (Hd1 & Hd2 & HE).
  pose proof (valid_finite _ _ _ Hv) as (Hm & He & Hnorm).
  change (2 ^ 53) with 9007199254740992 in Hm.
  change (2 ^ 52) with 4503599627370496 in Hnorm.
  destruct (round_aux_cases false _ _ HE) as (q' & Hq' & Hres).
  pose proof (shifted_lt _ _ HE) as Hq.
  set (P := (7205759403792794 * m)%positive) in *.
  assert (HP : Zpos P = 7205759403792794 * Zpos m) by apply Pos2Z.inj_mul.
  set (d := Zpos (digits2_pos P)) in *.
  set (e1 := fexp prec emax (d + (-53 + e))) in *.
  assert (He1 : e1 = Z.max (d + (-53 + e) - 53) (-1074)) by apply fexp_eq.
  assert (Hd3 : e = -53 → d = 105).
  { intros ->. destruct Hlt as [|[_ Hlt]]; [lia|].
    apply (digits_of_range P 105 (2 ^ 104) (2 ^ 105)); [done..|].
    change (2 ^ 104) with 20282409603651670423947251286016.
    change (2 ^ 105) with 40564819207303340847894502572032.
    specialize (Hnorm ltac:(lia)). lia. }
  assert (He54 : e1 ≤ -54).
  { destruct (Z.eq_dec e (-53)) as [Heq|]; [specialize (Hd3 Heq)|]; lia. }
  destruct Hres as [[Hsmall ->]|[Hcarry ->]].
  - destruct q' as [|m'|m']; [by left| |lia].
    right. exists m', e1. split; [|done].
    by rewrite (proj2 (Z.leb_le e1 971)) by lia.
  - destruct (Z.eq_dec e1 (-54)) as [He1'|].
    + exfalso.
      assert (e = -53 ∨ e = -54) as [->| ->] by lia.
      * specialize (Hd3 eq_refl).
        replace (e1 - (-53 + -53)) with 52 in Hq' by lia.
        assert (Zpos P / 2 ^ 52 < 9007199254740991); [|lia].
        apply Z.div_lt_upper_bound; [done|].
        change (2 ^ 52) with 4503599627370496. lia.
      * replace (e1 - (-53 + -54)) with 53 in Hq' by lia.
        assert (Zpos P / 2 ^ 53 < 9007199254740991); [|lia].
        apply Z.div_lt_upper_bound; [done|].
        change (2 ^ 53) with 9007199254740992. lia.
    + right. exists 4503599627370496%positive, (e1 + 1). split; [|lia].
      by rewrite (proj2 (Z.leb_le (e1 + 1) 971)) by lia.
Qed.

Lemma product_above_half m e :
  valid_binary (S754_finite false m e) = true →
  -53 < e ∨ e = -53 ∧ 5629499534213120 < Zpos m →
  above_half
    (binary_round_aux prec emax false (Zpos (7205759403792794 * m)) (-53 + e)
       loc_Exact).
Proof.
  intros Hv Hgt.
  pose proof (product_digits _ m e Hv) as (Hd1 & Hd2 & HE).
  pose proof (valid_finite _ _ _ Hv) as (Hm & He & Hnorm).
  change (2 ^ 53) with 9007199254740992 in Hm.
  change (2 ^ 52) with 4503599627370496 in Hnorm.
  specialize (Hnorm ltac:(lia)). specialize (Hd2 ltac:(lia)).
  destruct (round_aux_cases false _ _ HE) as (q' & Hq' & Hres).
  set (P := (7205759403792794 * m)%positive) in *.
  assert (HP : Zpos P = 7205759403792794 * Zpos m) by apply Pos2Z.inj_mul.
  pose proof (digits2_bounds P) as [HPlo HPhi].
  set (d := Zpos (digits2_pos P)) in *.
  set (e1 := fexp prec emax (d + (-53 + e))) in *.
  assert (He1 : e1 = d + e - 106) by (unfold e1; rewrite fexp_eq; lia).
  assert (Hn : e1 - (-53 + e) = d - 53) by lia. rewrite Hn in Hq'.
  assert (Hd : d = 105 ∨ d = 106) by lia.
  (* the shifted mantissa has 53 digits, and more than the bare minimum when
     the exponent is the one of one half *)
  assert (Hq : 4503599627370496 ≤ Zpos P / 2 ^ (d - 53) ∧
               (e1 = -53 → 4503599627370496 < Zpos P / 2 ^ (d - 53))).
  { destruct Hd as [Hd|Hd]; rewrite Hd in *.
    - change (105 - 53) with 52. change (2 ^ 52) with 4503599627370496. split.
      + apply Z.div_le_lower_bound; lia.
      + intros He53. apply Z.lt_le_trans with 7205759403792794; [lia|].
        apply Z.div_le_lower_bound; lia.
    - change (106 - 53) with 53. change (2 ^ 53) with 9007199254740992.
      change (2 ^ (106 - 1)) with 40564819207303340847894502572032 in HPlo.
      split.
      + apply Z.div_le_lower_bound; lia.
      + intros He53. apply Z.lt_le_trans with 4503599627370497; [lia|].
        apply Z.div_le_lower_bound; lia. }
  destruct Hq as [Hq Hq53].
  assert (He53 : -53 ≤ e1).
  { destruct Hgt as [|[-> Hgt]]; [lia|].
    destruct Hd as [Hd|Hd]; [|lia]. exfalso. rewrite Hd in HPhi.
    change (2 ^ 105) with 40564819207303340847894502572032 in HPhi. lia. }
  destruct Hres as [[Hsmall ->]|[Hcarry ->]].
  - destruct q' as [|m'|m']; [lia| |lia].
    destruct (e1 <=? 971); [|by left].
    right. exists m', e1. split; [done|].
    destruct (Z.eq_dec e1 (-53)) as [Heq|]; [|lia].
    right. split; [done|]. specialize (Hq53 Heq). lia.
  - destruct (e1 + 1 <=? 971); [|by left].
    right. exists 4503599627370496%positive, (e1 + 1). split; [done|]. lia.
Qed.

Lemma ltb_finite_pos m1 e1 m2 e2 :
  SFltb (S754_finite false m1 e1) (S754_finite false m2 e2) = true ↔
  e1 < e2 ∨ e1 = e2 ∧ Zpos m1 < Zpos m2.
Proof.
  unfold SFltb, SFcompare.
  change (Pos.compare_cont Eq m1 m2) with (Pos.compare m1 m2).
  destruct (Z.compare_spec e1 e2) as [->|Hlt|Hgt].
  - destruct (Pos.compare_spec m1 m2) as [->|Hm|Hm]; split; try done; lia.
  - split; [lia|done].
  - split; [done|lia].
Qed.

Lemma mul_0_8_finite s m e :
  SF64mul (S754_finite false 7205759403792794 (-53)) (S754_finite s m e) =
  binary_round_aux prec emax s (Zpos (7205759403792794 * m)) (-53 + e) loc_Exact.
Proof. reflexivity. Qed.

Lemma product_negative m e :
  valid_binary (S754_finite true m e) = true →
  SFltb (S754_finite false 4503599627370496 (-53))
    (binary_round_aux prec emax true (Zpos (7205759403792794 * m)) (-53 + e)
       loc_Exact) = false.
Proof.
  intros Hv. pose proof (product_digits _ m e Hv) as (_ & _ & HE).
  destruct (round_aux_cases true _ _ HE) as (q' & _ & [[_ ->]|[_ ->]]).
  - destruct q'; [done| |done]. by destruct (_ <=? _).
  - by destruct (_ <=? _).
Qed.

Lemma mul_0_8_below_half (s : float) :
  (0 <? s)%float = true → (s <? 0.625)%float = true →
  (0.8 * s <? 0.5)%float = true.
Proof.
  rewrite !ltb_spec, mul_spec, Prim2SF_0_8, Prim2SF_0_5, Prim2SF_0_625.
  change (Prim2SF 0) with (S754_zero false).
  pose proof (Prim2SF_valid s) as Hv.
  destruct (Prim2SF s) as [b|b| |b m e]; try done; try (by destruct b).
  destruct b; [done|]. intros _ Hlt. apply ltb_finite_pos in Hlt.
  rewrite mul_0_8_finite. by apply below_half_ltb, product_below_half.
Qed.

Lemma mul_0_8_above_half (s : float) :
  (0.5 <? 0.8 * s)%float = true ↔ (0.625 <? s)%float = true.
Proof.
  rewrite !ltb_spec, mul_spec, Prim2SF_0_8, Prim2SF_0_5, Prim2SF_0_625.
  pose proof (Prim2SF_valid s) as Hv.
  destruct (Prim2SF s) as [b|b| |b m e]; try done; try (by destruct b).
  rewrite mul_0_8_finite. destruct b.
    + by rewrite product_negative.
    + rewrite ltb_finite_pos. split.
      * intros Hhalf.
        destruct (Z.lt_trichotomy e (-53)) as [He|[->|He]]; [|  |lia].
        { assert (Hb : e < -53 ∨ e = -53 ∧ Zpos m < 5629499534213120) by lia.
          apply (product_below_half m _ Hv), below_half_ltb in Hb as [_ Hb'].
          congruence. }
        destruct (Z.lt_trichotomy (Zpos m) 5629499534213120) as [Hm|[Hm|Hm]];
          [|  |lia].
        { assert (Hb : -53 < -53 ∨ -53 = -53 ∧ Zpos m < 5629499534213120) by lia.
          apply (product_below_half m _ Hv), below_half_ltb in Hb as [_ Hb'].
          congruence. }
        injection Hm as ->. by vm_compute in Hhalf.
      * intros Hgt. apply above_half_ltb, product_above_half; [done|lia].
Qed.

(** C10: on a cell with its own pheromone at a strength [s] with
    [0 < s < 5/8] an agent computes a probability of moving straight
    strictly below 0.5, the probability on an unscented cell; and it
    computes one above 0.5 exactly when [s > 5/8].  The strength ranges over
    all binary64 numbers and the product is the rounded one. *)
Theorem own_trail_threshold (self : Ant.t) (s : float) :
  let p := Ant.move_straight_prob self (Ant.pheromone self) s in
  ((0 <? s)%float = true → (s <? 0.625)%float = true →
     (p <? 0.5)%float = true) ∧
  ((0.5 <? p)%float = true ↔ (0.625 <? s)%float = true) ∧
  (Ant.pheromone self ≠ 0 → Ant.move_straight_prob self 0 s = 0.5%float).
Proof.
  unfold Ant.move_straight_prob. rewrite decide_True by done. split_and!.
  - apply mul_0_8_below_half.
  - apply mul_0_8_above_half.
  - intros Hid. rewrite decide_False by done. by rewrite decide_False by tauto.
Qed.

Lemma own_trail_threshold_witness :
  (Ant.move_straight_prob (Ant.Build 5 5 0 1) 1 0.4000000000000001
     <? 0.5)%float = true ∧
  (0.5 <? Ant.move_straight_prob (Ant.Build 5 5 0 1) 1 0.8)%float = true ∧
  Ant.move_straight_prob (Ant.Build 5 5 0 1) 0 0.8 = 0.5%float.
Proof.
  destruct (own_trail_threshold (Ant.Build 5 5 0 1) 0.4000000000000001)
    as (Hbelow & _ & _).
  destruct (own_trail_threshold (Ant.Build 5 5 0 1) 0.8)
    as (_ & Habove & Hnone).
  split_and!.
  - by apply Hbelow.
  - by apply Habove.
  - by apply Hnone.
Defined.

(** * Further properties of the simulation *)

(** ** What a run keeps *)

Lemma move_ants_steps N rand sim sim' :
  Sim.move_ants N rand sim = Ok sim' → Sim.steps sim' = Sim.steps sim.
Proof.
  intros H.
  apply (for_each_seq_inv (λ _ s, Sim.steps s = Sim.steps sim)) in H; [done..|].
  intros k s s' _ IH Hbody.
  apply move_ant_Ok in Hbody as (a & a' & g' & p' & s1 & _ & _ & ->). done.
Qed.

(** X1: a run of [n] iterations adds [n] to the step counter and keeps the
    pheromone ids of the ants, in their order: no ant appears, disappears or
    changes its id. *)
Theorem run_counts_steps_keeps_ants N rate rand n sim sim' :
  Sim.run N rate rand n sim = Ok sim' →
  Sim.steps sim' = Sim.steps sim + Z.of_nat n ∧
  Ant.pheromone <$> Sim.ants sim' = Ant.pheromone <$> Sim.ants sim ∧
  length (Sim.ants sim') = length (Sim.ants sim).
Proof.
  intros Hrun.
  assert (Hids := run_ids _ _ _ _ _ _ Hrun).
  split_and!; [|done|].
  - revert rand sim Hrun Hids. induction n as [|n IH]; intros rand sim; simpl.
    + intros [= <-] _. lia.
    + intros H _. apply bind_Ok in H as (sim1 & Hstep & H).
      rewrite (IH _ _ H (run_ids _ _ _ _ _ _ H)).
      apply stepAll_Ok in Hstep as (sim2 & Hmove & ->). simpl.
      rewrite (move_ants_steps _ _ _ _ Hmove). lia.
  - by rewrite <-(length_fmap Ant.pheromone), Hids, length_fmap.
Qed.

Lemma run_counts_steps_keeps_ants_witness :
  ∃ sim',
    Sim.run 10 DECAY_RATE (λ _ _, 0.9%float) 7 scenario = Ok sim' ∧
    Sim.steps sim' = 7 ∧ Ant.pheromone <$> Sim.ants sim' = [1].
Proof.
  eexists. split; [vm_compute; reflexivity|].
  destruct (run_counts_steps_keeps_ants 10 DECAY_RATE (λ _ _, 0.9%float) 7
              scenario _ ltac:(vm_compute; reflexivity)) as (Hsteps & Hids & _).
  split; [exact Hsteps|exact Hids].
Defined.

(** ** Colors, strengths and owners in the states a run reaches *)

Lemma run_inv (P : Sim.t → Prop) N rate rand n sim sim' :
  (∀ rand s s', P s → Sim.stepAll N rate rand s = Ok s' → P s') →
  P sim → Sim.run N rate rand n sim = Ok sim' → P sim'.
Proof.
  intros Hstep. revert rand sim. induction n as [|n IH]; intros rand sim; simpl.
  - by intros ? [= <-].
  - intros HP H. apply bind_Ok in H as (sim1 & Hs & H).
    apply (IH (λ k, rand (S k)) sim1); eauto.
Qed.

Lemma move_ants_inv (P : Sim.t → Prop) N rand sim sim' :
  (∀ r i s s', P s → Sim.move_ant N r i s = Ok s' → P s') →
  P sim → Sim.move_ants N rand sim = Ok sim' → P sim'.
Proof.
  intros Hstep HP H.
  apply (for_each_seq_inv (λ _ s, P s)) in H; eauto.
Qed.

Lemma move_ant_binary N r i sim sim' :
  binary_grid sim → Sim.move_ant N r i sim = Ok sim' → binary_grid sim'.
Proof.
  intros Hbin H.
  apply move_ant_Ok in H as (a & a' & g' & p' & s' & _ & Hmove & ->).
  apply move_Ok in Hmove
    as (c & o & st & dx & dy & Hc & _ & _ & Hg & _).
  intros i' j' w Hw. simpl in Hw.
  destruct (get_set_cases _ _ _ _ _ _ _ _ Hg Hw) as [->|Hold].
  - destruct (Hbin _ _ _ Hc) as [-> | ->]; [by right|by left].
  - by apply (Hbin i' j').
Qed.

(** X2: the grid stays binary: in every state that a run reaches from the
    constructed one, every cell has the color 0 or 1. *)
Theorem reachable_colors_binary N rate d1 d2 rand n sim0 sim i j c :
  Sim.init N d1 d2 = Ok sim0 →
  Sim.run N rate rand n sim0 = Ok sim →
  Np.get (Sim.grid sim) i j = Ok c →
  c = 0 ∨ c = 1.
Proof.
  intros Hinit Hrun. revert i j c.
  apply (run_inv binary_grid _ _ _ _ _ _ ) with (3 := Hrun).
  - intros rand' s s' Hbin Hstep.
    apply stepAll_Ok in Hstep as (s1 & Hmove & ->).
    apply (move_ants_inv binary_grid) in Hmove; eauto using move_ant_binary.
  - apply init_Ok in Hinit as (g & p & s & Hg & _ & _ & ->).
    intros i j c Hc. simpl in Hc. left. by apply (get_zeros _ _ _ _ _ _ Hg Hc).
Qed.

Lemma reachable_colors_binary_witness :
  ∃ sim0 sim,
    Sim.init 30 0 0 = Ok sim0 ∧
    Sim.run 30 DECAY_RATE (λ _ _, 0.9%float) 6 sim0 = Ok sim ∧
    Np.get (Sim.grid sim) 15 15 = Ok 0 ∧ (0 = 0 ∨ 0 = 1).
Proof.
  eexists _, _. split; [reflexivity|]. split; [vm_compute; reflexivity|].
  split; [vm_compute; reflexivity|].
  eapply (reachable_colors_binary 30 DECAY_RATE 0 0 (λ _ _, 0.9%float) 6 _ _
            15 15 0).
  - reflexivity.
  - vm_compute. reflexivity.
  - vm_compute. reflexivity.
Defined.

Lemma locate_same_shape {A B} (a : list (list A)) (b : list (list B)) i j :
  Np.shape a = Np.shape b → Np.locate a i j = Np.locate b i j.
Proof.
  intros Hs. unfold Np.locate. rewrite (shape_length _ _ Hs).
  destruct (Py.index (length b) i) as [r|e]; simpl; [|done].
  destruct (a !! r) as [row|] eqn:Hrow.
  - destruct (shape_lookup _ _ _ _ Hs Hrow) as (row' & Hb & Hlen).
    rewrite Hb. simpl. by rewrite Hlen.
  - destruct (b !! r) as [row'|] eqn:Hrow'; [|done].
    destruct (shape_lookup _ _ _ _ (eq_sym Hs) Hrow') as (row & Hrow'' & _).
    congruence.
Qed.

Lemma get_set_located {A} (a a' : list (list A)) i j i' j' v :
  Np.set a i j v = Ok a' → Np.locate a i' j' = Np.locate a i j →
  Np.get a' i' j' = Ok v.
Proof.
  intros Hset Heq.
  destruct (set_locate _ _ _ _ _ Hset) as (r & c & Hloc).
  rewrite Hloc in Heq. apply locate_Ok in Heq as (row' & Hr' & Hrow' & Hc').
  apply set_Ok in Hset as (r0 & row & c0 & Hr & Hrow & Hc & ->).
  apply locate_Ok in Hloc as (row0 & Hr0 & Hrow0 & Hc0).
  rewrite Hr in Hr0. injection Hr0 as ->.
  rewrite Hrow in Hrow0, Hrow'. injection Hrow0 as <-. injection Hrow' as <-.
  rewrite Hc in Hc0. injection Hc0 as ->.
  apply get_Ok. exists r, (<[c := v]> row), c.
  rewrite !length_insert. split_and!; [done| |done|].
  - apply list_lookup_insert_eq. eauto using index_lt.
  - apply list_lookup_insert_eq. eauto using index_lt.
Qed.

Lemma get_map2_inv {A B C} (f : A → B → C) (a : list (list A))
    (b : list (list B)) i j w :
  Np.shape a = Np.shape b → Np.get (Np.map2 f a b) i j = Ok w →
  ∃ v u, Np.get a i j = Ok v ∧ Np.get b i j = Ok u ∧ w = f v u.
Proof.
  intros Hs Hw.
  destruct (get_same_shape _ a _ _ _ (shape_map2 f a b Hs) Hw) as [v Hv].
  destruct (get_same_shape _ b _ _ _ Hs Hv) as [u Hu].
  exists v, u. split_and!; [done..|].
  rewrite (get_map2 f _ _ _ _ _ _ Hs Hv Hu) in Hw. congruence.
Qed.

Lemma level_zero s : s ∈ Sim.levels → (s =? 0)%float = true → s = 0%float.
Proof.
  unfold Sim.levels. rewrite !elem_of_cons, elem_of_nil.
  intros [->|[->|[->|[->|[->|[->|[->|[]]]]]]]]; done.
Qed.

Lemma move_ant_scent_inv N r i sim sim' :
  scent_inv sim → Sim.move_ant N r i sim = Ok sim' → scent_inv sim'.
Proof.
  intros (Hshape & Hlev & Hown) H.
  pose proof (move_ant_levels _ _ _ _ _ Hlev H) as Hlev'.
  pose proof (move_ant_ids _ _ _ _ _ H) as Hids.
  apply move_ant_Ok in H as (a & a' & g' & p' & s' & Ha & Hmove & ->).
  apply move_Ok in Hmove
    as (c & o & st & dx & dy & _ & _ & _ & _ & Hp & Hs & _).
  split_and!; [|done|].
  - simpl. by rewrite (shape_set _ _ _ _ _ Hp), (shape_set _ _ _ _ _ Hs).
  - intros i' j' w o' Hw Ho' Hpos. rewrite Hids. simpl in Hw, Ho'.
    destruct (decide (Np.locate (Sim.pheromone_strengths sim) i' j' =
                      Np.locate (Sim.pheromone_strengths sim)
                        (Ant.y a) (Ant.x a))) as [Heq|Hne].
    + rewrite <-!(locate_same_shape _ _ _ _ Hshape) in Heq.
      rewrite (get_set_located _ _ _ _ _ _ _ Hp Heq) in Ho'.
      injection Ho' as <-. apply list_elem_of_fmap_2.
      by eapply list_elem_of_lookup_2.
    + rewrite (get_set_ne _ _ _ _ _ _ _ Hs Hne) in Hw.
      rewrite <-!(locate_same_shape _ _ _ _ Hshape) in Hne.
      rewrite (get_set_ne _ _ _ _ _ _ _ Hp Hne) in Ho'.
      by apply (Hown i' j' w).
Qed.

Lemma decay_cell N sim i j s o :
  Np.shape (Sim.pheromones sim) = Np.shape (Sim.pheromone_strengths sim) →
  Np.get (Sim.pheromone_strengths (Sim.decay_pheromones N sim)) i j = Ok s →
  Np.get (Sim.pheromones (Sim.decay_pheromones N sim)) i j = Ok o →
  ∃ s0 o0,
    Np.get (Sim.pheromone_strengths sim) i j = Ok s0 ∧
    Np.get (Sim.pheromones sim) i j = Ok o0 ∧
    s = Sim.decay_strength N s0 ∧
    o = if (s =? 0)%float then 0 else o0.
Proof.
  intros Hshape Hs Ho.
  change (Sim.pheromones (Sim.decay_pheromones N sim)) with
    (Np.map2 (λ o s, if (s =? 0)%float then 0 else o) (Sim.pheromones sim)
       (Sim.pheromone_strengths (Sim.decay_pheromones N sim))) in Ho.
  rewrite decay_strengths in Hs, Ho.
  apply get_map2_inv in Ho as (o0 & s' & Ho0 & Hs' & ->);
    [|by rewrite shape_map].
  rewrite Hs in Hs'. injection Hs' as <-.
  apply get_map_inv in Hs as (s0 & Hs0 & ->). by exists s0, o0.
Qed.

Lemma stepAll_scent_inv N rand sim sim' :
  scent_inv sim → Sim.stepAll N DECAY_RATE rand sim = Ok sim' →
  scent_inv sim'.
Proof.
  intros Hinv H. apply stepAll_Ok in H as (sim1 & Hmove & ->).
  apply (move_ants_inv scent_inv) in Hmove; eauto using move_ant_scent_inv.
  destruct Hmove as (Hshape & Hlev & Hown).
  split_and!; cbn [Sim.pheromones Sim.pheromone_strengths Sim.ants].
  - change (Sim.pheromones (Sim.decay_pheromones DECAY_RATE sim1)) with
      (Np.map2 (λ o s, if (s =? 0)%float then 0 else o) (Sim.pheromones sim1)
         (Sim.pheromone_strengths (Sim.decay_pheromones DECAY_RATE sim1))).
    rewrite decay_strengths, shape_map2, shape_map; [done|].
    by rewrite shape_map.
  - intros i j s Hs. cbn [Sim.pheromone_strengths] in Hs.
    rewrite decay_strengths in Hs.
    apply get_map_inv in Hs as (s0 & Hs0 & ->).
    apply decay_strength_level. by apply (Hlev i j).
  - intros i j s o Hs Ho Hpos.
    cbn [Sim.pheromones Sim.pheromone_strengths Sim.ants] in Hs, Ho |- *.
    destruct (decay_cell _ _ _ _ _ _ Hshape Hs Ho)
      as (s0 & o0 & Hs0 & Ho0 & -> & ->).
    rewrite Hpos. apply (Hown i j s0 o0 Hs0 Ho0).
    destruct (s0 =? 0)%float eqn:Hz; [|done].
    rewrite (level_zero s0 (Hlev _ _ _ Hs0) Hz) in Hpos. done.
Qed.

Lemma init_scent_inv N d1 d2 sim :
  Sim.init N d1 d2 = Ok sim → scent_inv sim.
Proof.
  intros H. pose proof (init_shaped _ _ _ _ H) as (_ & Hp & Hs).
  apply init_Ok in H as (g & p & s & _ & _ & Hz & ->). simpl in *.
  split_and!; [simpl; congruence| |].
  - intros i j w Hw. simpl in Hw.
    rewrite (get_zeros _ _ _ _ _ _ Hz Hw). apply list_elem_of_here.
  - intros i j w o Hw _ Hpos. simpl in Hw.
    by rewrite (get_zeros _ _ _ _ _ _ Hz Hw) in Hpos.
Qed.

(** X3: in every state that a run reaches from the constructed one, owner
    and strength of a cell agree: the owner is 0 exactly when the strength
    is 0, and otherwise it is the id of one of the two ants. *)
Theorem reachable_owner_matches_strength N d1 d2 rand n sim0 sim i j s o :
  Sim.init N d1 d2 = Ok sim0 →
  Sim.run N DECAY_RATE rand n sim0 = Ok sim →
  Np.get (Sim.pheromone_strengths sim) i j = Ok s →
  Np.get (Sim.pheromones sim) i j = Ok o →
  (o = 0 ↔ (s =? 0)%float = true) ∧ (o = 0 ∨ o = 1 ∨ o = 2).
Proof.
  intros Hinit Hrun Hs Ho.
  assert (Hinv : scent_inv sim).
  { apply (run_inv scent_inv _ _ _ _ _ _) with (3 := Hrun);
      eauto using stepAll_scent_inv, init_scent_inv. }
  destruct Hinv as (_ & _ & Hown). specialize (Hown i j s o Hs Ho).
  rewrite (run_ids _ _ _ _ _ _ Hrun) in Hown.
  destruct (run_shaped_owner_cleared N DECAY_RATE rand n sim0 sim)
    as [_ Hclear]; eauto using init_shaped, init_owner_cleared.
  specialize (Hclear i j s Hs).
  apply init_Ok in Hinit as (g & p & st & _ & _ & _ & ->). simpl in Hown.
  destruct (s =? 0)%float.
  - rewrite Hclear in Ho by done. injection Ho as <-. split; [done|by left].
  - specialize (Hown eq_refl).
    rewrite elem_of_cons, list_elem_of_singleton in Hown.
    split; [split; [lia|done]|lia].
Qed.

Lemma reachable_owner_matches_strength_witness :
  ∃ sim0 sim,
    Sim.init 30 0 0 = Ok sim0 ∧
    Sim.run 30 DECAY_RATE (λ _ _, 0%float) 6 sim0 = Ok sim ∧
    Np.get (Sim.pheromone_strengths sim) 10 15 = Ok 0.8%float ∧
    Np.get (Sim.pheromones sim) 10 15 = Ok 1 ∧
    (1 = 0 ↔ (0.8 =? 0)%float = true).
Proof.
  eexists _, _. split; [reflexivity|]. split; [vm_compute; reflexivity|].
  split; [vm_compute; reflexivity|]. split; [vm_compute; reflexivity|].
  eapply (reachable_owner_matches_strength 30 0 0 (λ _ _, 0%float) 6 _ _
            10 15 0.8%float 1).
  - reflexivity.
  - vm_compute. reflexivity.
  - vm_compute. reflexivity.
  - vm_compute. reflexivity.
Defined.

(** X4: in every state that a run reaches from the constructed one, with
    the decay rate of the source, every strength is one of seven values
    between 0 and 1; no strength is negative, above 1 or not a number. *)
Theorem reachable_strength_in_unit_interval N d1 d2 rand n sim0 sim i j s :
  Sim.init N d1 d2 = Ok sim0 →
  Sim.run N DECAY_RATE rand n sim0 = Ok sim →
  Np.get (Sim.pheromone_strengths sim) i j = Ok s →
  s ∈ Sim.levels ∧ (0 <=? s)%float = true ∧ (s <=? 1)%float = true.
Proof. apply reachable_strength_bounds. Qed.

Lemma reachable_strength_in_unit_interval_witness :
  ∃ sim0 sim,
    Sim.init 30 0 0 = Ok sim0 ∧
    Sim.run 30 DECAY_RATE (λ _ _, 0%float) 6 sim0 = Ok sim ∧
    Np.get (Sim.pheromone_strengths sim) 14 15 = Ok 0x1p-54%float ∧
    (0 <=? 0x1p-54)%float = true ∧ (0x1p-54 <=? 1)%float = true.
Proof.
  eexists _, _. split; [reflexivity|]. split; [vm_compute; reflexivity|].
  split; [vm_compute; reflexivity|].
  eapply (reachable_strength_in_unit_interval 30 0 0 (λ _ _, 0%float) 6 _ _
            14 15 0x1p-54%float).
  - reflexivity.
  - vm_compute. reflexivity.
  - vm_compute. reflexivity.
Defined.

(** ** Two ants on one cell *)

(** X5: when an ant moves from the cell another ant has just left (a later
    ant of the same step, or the next visitor before any decay), it sees
    the flipped color and the first ant's pheromone at full strength, so its
    probability of moving straight is [0.2] after another ant and [0.8] after
    an ant with its own id; after its move the cell has its color of before
    the first move again, and the second ant's id at full strength. *)
Theorem second_move_on_cell N a1 a2 r1 r2 g p s c a1' g1 p1 s1 a2' g2 p2 s2 :
  Ant.y a2 = Ant.y a1 → Ant.x a2 = Ant.x a1 →
  Np.get g (Ant.y a1) (Ant.x a1) = Ok c →
  Ant.move N a1 r1 g p s = Ok (a1', g1, p1, s1) →
  Ant.move N a2 r2 g1 p1 s1 = Ok (a2', g2, p2, s2) →
  Ant.direction a2' =
    Ant.new_direction a2 r2 (Z.lxor c 1)
      (moveStraightProbability (Ant.pheromone a2) (Ant.pheromone a1) 1) ∧
  Np.get g2 (Ant.y a1) (Ant.x a1) = Ok c ∧
  Np.get p2 (Ant.y a1) (Ant.x a1) = Ok (Ant.pheromone a2) ∧
  Np.get s2 (Ant.y a1) (Ant.x a1) = Ok 1%float.
Proof.
  intros Hy Hx Hc H1 H2.
  apply move_Ok in H1
    as (c1 & o1 & st1 & dx1 & dy1 & Hc1 & _ & _ & Hg1 & Hp1 & Hs1 & _).
  rewrite Hc in Hc1. injection Hc1 as <-.
  apply move_Ok in H2
    as (c2 & o2 & st2 & dx2 & dy2 & Hc2 & Ho2 & Hst2 & Hg2 & Hp2 & Hs2
        & _ & _ & _ & ->).
  rewrite Hy, Hx in *.
  rewrite (get_set_eq _ _ _ _ _ Hg1) in Hc2. injection Hc2 as <-.
  rewrite (get_set_eq _ _ _ _ _ Hp1) in Ho2. injection Ho2 as <-.
  rewrite (get_set_eq _ _ _ _ _ Hs1) in Hst2.
  assert (st2 = 1%float) as -> by congruence.
  split_and!.
  - done.
  - rewrite (get_set_eq _ _ _ _ _ Hg2). f_equal.
    by rewrite Z.lxor_assoc, Z.lxor_nilpotent, Z.lxor_0_r.
  - apply (get_set_eq _ _ _ _ _ Hp2).
  - apply (get_set_eq _ _ _ _ _ Hs2).
Qed.

Lemma second_move_on_cell_witness :
  ∃ a1' g1 p1 s1 a2' g2 p2 s2,
    Ant.move 10 (Ant.Build 5 5 0 1) 0.9%float
      (Sim.grid scenario) (Sim.pheromones scenario)
      (Sim.pheromone_strengths scenario) = Ok (a1', g1, p1, s1) ∧
    Ant.move 10 (Ant.Build 5 5 0 2) 0.1%float g1 p1 s1 = Ok (a2', g2, p2, s2) ∧
    moveStraightProbability 2 1 1 = 0.2%float ∧
    Ant.direction a2' = 0 ∧
    Np.get g2 5 5 = Ok 0 ∧ Np.get p2 5 5 = Ok 2.
Proof.
  eexists _, _, _, _, _, _, _, _.
  split; [reflexivity|]. split; [reflexivity|]. split; [reflexivity|].
  destruct (second_move_on_cell 10 (Ant.Build 5 5 0 1) (Ant.Build 5 5 0 2)
              0.9%float 0.1%float (Sim.grid scenario) (Sim.pheromones scenario)
              (Sim.pheromone_strengths scenario) 0 _ _ _ _ _ _ _ _
              eq_refl eq_refl eq_refl eq_refl eq_refl)
    as (Hd & Hg & Hp & _).
  split_and!; [exact Hd|exact Hg|exact Hp].
Defined.

(** ** Where a move leads *)

Lemma mod_succ_ne x N : 2 ≤ N → 0 ≤ x < N → (x + 1) `mod` N ≠ x.
Proof.
  intros HN Hx. destruct (decide (x + 1 = N)) as [Heq|Hne].
  - rewrite Heq, Z_mod_same_full. lia.
  - rewrite Z.mod_small by lia. lia.
Qed.

Lemma mod_pred_ne x N : 2 ≤ N → 0 ≤ x < N → (x - 1) `mod` N ≠ x.
Proof.
  intros HN Hx. destruct (decide (x = 0)) as [->|Hne].
  - assert ((0 - 1) `mod` N = N - 1) as ->; [|lia].
    symmetry. apply (Z.mod_unique _ _ (-1)); lia.
  - rewrite Z.mod_small by lia. lia.
Qed.

Lemma getitem_DIRECTIONS_inv d dx dy :
  Py.getitem DIRECTIONS d = Ok (dx, dy) →
  (dx = 0 ∧ dy = -1) ∨ (dx = 1 ∧ dy = 0) ∨ (dx = 0 ∧ dy = 1) ∨
  (dx = -1 ∧ dy = 0).
Proof.
  rewrite getitem_Ok. intros (k & _ & Hk).
  apply list_elem_of_lookup_2 in Hk. unfold DIRECTIONS in Hk.
  rewrite !elem_of_cons, elem_of_nil in Hk.
  destruct Hk as [Hk|[Hk|[Hk|[Hk|[]]]]]; injection Hk as -> ->; lia.
Qed.

(** X6: a move takes an ant that is on the grid to one of the four
    neighbours of its cell on the torus: one coordinate stays, the other
    becomes the next or the previous one modulo [N], and for [N ≥ 2] the
    ant does leave its cell.  On a grid of side 1 it stays at (0,0). *)
Theorem move_to_neighbour N self r g p s self' g' p' s' :
  1 ≤ N → 0 ≤ Ant.x self < N → 0 ≤ Ant.y self < N →
  Ant.move N self r g p s = Ok (self', g', p', s') →
  ((Ant.x self' = Ant.x self ∧
    (Ant.y self' = (Ant.y self + 1) `mod` N ∨
     Ant.y self' = (Ant.y self - 1) `mod` N)) ∨
   (Ant.y self' = Ant.y self ∧
    (Ant.x self' = (Ant.x self + 1) `mod` N ∨
     Ant.x self' = (Ant.x self - 1) `mod` N))) ∧
  (2 ≤ N → (Ant.x self', Ant.y self') ≠ (Ant.x self, Ant.y self)) ∧
  (N = 1 → Ant.x self' = 0 ∧ Ant.y self' = 0).
Proof.
  intros HN Hx Hy H.
  apply move_Ok in H
    as (c & o & st & dx & dy & _ & _ & _ & _ & _ & _ & Hd & _ & _ & ->).
  simpl. apply getitem_DIRECTIONS_inv in Hd.
  assert (Hx0 : (Ant.x self + 0) `mod` N = Ant.x self)
    by (rewrite Z.add_0_r; apply Z.mod_small; lia).
  assert (Hy0 : (Ant.y self + 0) `mod` N = Ant.y self)
    by (rewrite Z.add_0_r; apply Z.mod_small; lia).
  split_and!.
  - destruct Hd as [[-> ->]|[[-> ->]|[[-> ->]|[-> ->]]]]; rewrite ?Hx0, ?Hy0;
      auto.
  - intros HN2.
    pose proof (mod_succ_ne (Ant.x self) N HN2 Hx).
    pose proof (mod_pred_ne (Ant.x self) N HN2 Hx).
    pose proof (mod_succ_ne (Ant.y self) N HN2 Hy).
    pose proof (mod_pred_ne (Ant.y self) N HN2 Hy).
    destruct Hd as [[-> ->]|[[-> ->]|[[-> ->]|[-> ->]]]]; intros [= ? ?];
      done.
  - intros ->. by rewrite !Z.mod_1_r.
Qed.

Lemma move_to_neighbour_witness :
  ∃ self' g' p' s',
    Ant.move 10 (Ant.Build 9 0 0 1) 0.9%float
      (Sim.grid scenario) (Sim.pheromones scenario)
      (Sim.pheromone_strengths scenario) = Ok (self', g', p', s') ∧
    (Ant.x self', Ant.y self') = (0, 0) ∧
    (Ant.x self', Ant.y self') ≠ (9, 0).
Proof.
  eexists _, _, _, _. split; [reflexivity|]. split; [reflexivity|].
  destruct (move_to_neighbour 10 (Ant.Build 9 0 0 1) 0.9%float
              (Sim.grid scenario) (Sim.pheromones scenario)
              (Sim.pheromone_strengths scenario) _ _ _ _
              ltac:(lia) ltac:(simpl; lia) ltac:(simpl; lia) eq_refl)
    as (_ & Hleaves & _).
  apply Hleaves. lia.
Defined.

(** ** Directions *)

Lemma move_ant_oriented N r i sim sim' :
  ants_oriented sim → Sim.move_ant N r i sim = Ok sim' → ants_oriented sim'.
Proof.
  intros Hdir H.
  apply move_ant_Ok in H as (a & a' & g' & p' & s' & Ha & Hmove & ->).
  apply move_Ok in Hmove
    as (c & o & st & dx & dy & _ & _ & _ & _ & _ & _ & _ & _ & _ & ->).
  intros b Hb. apply list_elem_of_lookup in Hb as [k Hk]. simpl in Hk.
  destruct (decide (k = i)) as [->|Hne].
  - rewrite list_lookup_insert_eq in Hk by by eapply lookup_lt_Some.
    injection Hk as <-. simpl. apply new_direction_range, Hdir.
    by eapply list_elem_of_lookup_2.
  - rewrite list_lookup_insert_ne in Hk by done.
    apply Hdir. by eapply list_elem_of_lookup_2.
Qed.

(** X7: started with directions in [0..3], as [random.randint(0, 3)] gives
    them, every ant faces one of the four directions in every state that a
    run reaches. *)
Theorem reachable_directions N rate d1 d2 rand n sim0 sim a :
  0 ≤ d1 < 4 → 0 ≤ d2 < 4 →
  Sim.init N d1 d2 = Ok sim0 →
  Sim.run N rate rand n sim0 = Ok sim →
  a ∈ Sim.ants sim → 0 ≤ Ant.direction a < 4.
Proof.
  intros Hd1 Hd2 Hinit Hrun. revert a.
  apply (run_inv ants_oriented _ _ _ _ _ _) with (3 := Hrun).
  - intros rand' s s' Hdir Hstep.
    apply stepAll_Ok in Hstep as (s1 & Hmove & ->).
    apply (move_ants_inv ants_oriented) in Hmove; eauto using move_ant_oriented.
  - apply init_Ok in Hinit as (g & p & s & _ & _ & _ & ->).
    intros a. simpl. rewrite elem_of_cons, list_elem_of_singleton.
    by intros [->| ->].
Qed.

Lemma reachable_directions_witness :
  ∃ sim0 sim,
    Sim.init 30 0 3 = Ok sim0 ∧
    Sim.run 30 DECAY_RATE (λ _ _, 0.9%float) 6 sim0 = Ok sim ∧
    Forall (λ a, 0 ≤ Ant.direction a < 4) (Sim.ants sim).
Proof.
  eexists _, _. split; [reflexivity|]. split; [vm_compute; reflexivity|].
  apply Forall_forall. intros a.
  eapply (reachable_directions 30 DECAY_RATE 0 3 (λ _ _, 0.9%float) 6 _ _ a);
    [lia|lia|reflexivity|vm_compute; reflexivity].
Defined.

(** ** The smallest grid the two ants fit on *)

Lemma get_off_grid {A} (a : list (list A)) n i j :
  Np.shape a = replicate n n →
  ¬ (- Z.of_nat n ≤ i < Z.of_nat n) ∨ ¬ (- Z.of_nat n ≤ j < Z.of_nat n) →
  Np.get a i j = Raise IndexError.
Proof.
  intros Hs Hout.
  assert (Hlen : length a = n).
  { apply (f_equal length) in Hs. unfold Np.shape in Hs.
    by rewrite length_fmap, length_replicate in Hs. }
  unfold Np.get, Py.getitem. rewrite Hlen.
  destruct (Py.index n i) as [r|e] eqn:Hr; simpl.
  - destruct (a !! r) as [row|] eqn:Hrow; simpl; [|done].
    assert (Hrowlen : length row = n).
    { assert (H : Np.shape a !! r = Some (length row)).
      { unfold Np.shape. by rewrite list_lookup_fmap, Hrow. }
      rewrite Hs in H. by apply lookup_replicate in H as [-> _]. }
    rewrite Hrowlen.
    destruct (Py.index n j) as [c|e] eqn:Hc; simpl.
    + unfold Py.index in Hr, Hc. repeat case_decide; simplify_eq; lia.
    + unfold Py.index in Hc. by repeat case_decide; simplify_eq.
  - unfold Py.index in Hr. by repeat case_decide; simplify_eq.
Qed.

Lemma move_ant_off_grid N r i sim a :
  0 ≤ N → Sim.shaped N sim → Sim.ants sim !! i = Some a →
  ¬ (- N ≤ Ant.y a < N) ∨ ¬ (- N ≤ Ant.x a < N) →
  Sim.move_ant N r i sim = Raise IndexError.
Proof.
  intros HN (Hg & _) Ha Hout.
  unfold Sim.move_ant. rewrite Ha. simpl. unfold Ant.move.
  rewrite (get_off_grid _ _ _ _ Hg); [done|]. lia.
Qed.

Lemma move_ant_returns N r i sim a :
  0 < N → Sim.shaped N sim → Sim.ants sim !! i = Some a →
  0 ≤ Ant.x a < N → 0 ≤ Ant.y a < N → 0 ≤ Ant.direction a < 4 →
  - 2 ^ 63 ≤ Ant.pheromone a < 2 ^ 63 →
  ∃ sim', Sim.move_ant N r i sim = Ok sim' ∧ Sim.shaped N sim' ∧
          ∀ k, k ≠ i → Sim.ants sim' !! k = Sim.ants sim !! k.
Proof.
  intros HN Hsh Ha Hx Hy Hd Hid.
  pose proof Hsh as (Hg & Hp & Hs).
  destruct (get_square _ _ (Ant.y a) (Ant.x a) Hg) as [c Hc]; [lia..|].
  destruct (get_square _ _ (Ant.y a) (Ant.x a) Hp) as [o Ho]; [lia..|].
  destruct (get_square _ _ (Ant.y a) (Ant.x a) Hs) as [st Hst]; [lia..|].
  destruct (move_is_Ok N a r _ _ _ _ _ _ ltac:(lia) Hd Hid Hc Ho Hst)
    as (dx & dy & g' & p' & s' & _ & Hmove).
  assert (Hres : ∃ sim', Sim.move_ant N r i sim = Ok sim').
  { unfold Sim.move_ant. rewrite Ha. simpl. rewrite Hmove. by eexists. }
  destruct Hres as [sim' Hres]. exists sim'. split; [done|].
  split; [by eapply move_ant_shaped|].
  apply move_ant_Ok in Hres as (a0 & a' & g1 & p1 & s1 & _ & _ & ->).
  intros k Hk. simpl. by rewrite list_lookup_insert_ne.
Qed.

(** X8: the constructor places the second ant at [N // 2 + 10], so the
    grid must have a side of at least 21: for initial directions in [0..3]
    the first step returns exactly when [N ≥ 21], and on any smaller grid
    the construction succeeds and the first step raises an [IndexError]. *)
Theorem first_step_needs_side_21 N rate rand d1 d2 sim0 :
  0 ≤ d1 < 4 → 0 ≤ d2 < 4 →
  Sim.init N d1 d2 = Ok sim0 →
  ((∃ sim, Sim.stepAll N rate rand sim0 = Ok sim) ↔ 21 ≤ N) ∧
  (N < 21 → Sim.stepAll N rate rand sim0 = Raise IndexError).
Proof.
  intros Hd1 Hd2 Hinit.
  assert (Hsmall : N < 21 → Sim.stepAll N rate rand sim0 = Raise IndexError).
  { intros HN. pose proof (init_shaped _ _ _ _ Hinit) as Hsh.
    assert (0 ≤ N).
    { unfold Sim.init, Np.zeros in Hinit. case_decide; [done|lia]. }
    apply init_Ok in Hinit as (g & p & s & _ & _ & _ & ->).
    unfold Sim.stepAll, Sim.move_ants. simpl.
    destruct (decide (N = 0)) as [->|HN0].
    - rewrite (move_ant_off_grid 0 _ 0%nat _ (Ant.Build 0 0 d1 1));
        [done|lia|done|done|simpl; lia].
    - assert (0 ≤ N `div` 2 < N).
      { split; [apply Z.div_pos; lia|apply Z.div_lt; lia]. }
      edestruct (move_ant_returns N (rand 0%nat) 0%nat) as (sim1 & -> & Hsh1 & Hrest);
        [|exact Hsh|reflexivity|simpl; lia..|]; [lia|].
      simpl. specialize (Hrest 1%nat ltac:(lia)). simpl in Hrest.
      rewrite (move_ant_off_grid N _ 1%nat _ _ ltac:(lia) Hsh1 Hrest); [done|].
      simpl. assert (N ≤ N `div` 2 + 10); [|lia].
      pose proof (Z.div_mod N 2 ltac:(lia)).
      pose proof (Z.mod_pos_bound N 2 ltac:(lia)). lia. }
  split; [|done]. split.
  - intros [sim Hsim]. destruct (Z.le_gt_cases 21 N) as [|Hlt]; [done|].
    rewrite Hsmall in Hsim by lia. done.
  - intros HN.
    destruct (init_is_Ok N d1 d2 HN Hd1 Hd2) as (sim0' & Hinit' & Hsh & Hants).
    rewrite Hinit in Hinit'. injection Hinit' as <-.
    destruct (stepAll_is_Ok N rate rand sim0) as (sim & Hsim & _); [lia|done..|].
    by exists sim.
Qed.

Lemma first_step_needs_side_21_witness :
  ∃ sim0,
    Sim.init 20 0 0 = Ok sim0 ∧
    Sim.stepAll 20 DECAY_RATE (λ _, 0.9%float) sim0 = Raise IndexError.
Proof.
  eexists. split; [reflexivity|].
  by apply (first_step_needs_side_21 20 DECAY_RATE (λ _, 0.9%float) 0 0).
Defined.

(** * The window and the drawing *)

Import Pygame.

(** ** Loops that collect *)

Lemma for_list_Ok {A B} (f : A → result B) l bs :
  Display.for_list f l = Ok bs ↔ Forall2 (λ a b, f a = Ok b) l bs.
Proof.
  revert bs. induction l as [|a l IH]; intros bs; simpl.
  - split; [intros [= <-]; constructor|by intros ->%Forall2_nil_inv_l].
  - rewrite bind_Ok. split.
    + intros (b & Hb & H). apply bind_Ok in H as (bs' & Hbs & [= <-]).
      constructor; [done|]. by apply IH.
    + intros (b & bs' & Hb & Hbs & ->)%Forall2_cons_inv_l.
      exists b. split; [done|]. apply IH in Hbs. by rewrite Hbs.
Qed.

Lemma for_list_returns {A B} (f : A → result B) l :
  (∀ a, a ∈ l → ∃ b, f a = Ok b) → ∃ bs, Display.for_list f l = Ok bs.
Proof.
  induction l as [|a l IH]; intros Hall; simpl; [by eexists|].
  destruct (Hall a) as [b ->]; [apply list_elem_of_here|].
  destruct IH as [bs ->]; [|by eexists].
  intros a' Ha'. apply Hall. by apply list_elem_of_further.
Qed.

Lemma for_list_raises {A B} (f : A → result B) l e :
  (∀ a e', a ∈ l → f a = Raise e' → e' = e) →
  (∃ a, a ∈ l ∧ f a = Raise e) →
  Display.for_list f l = Raise e.
Proof.
  induction l as [|a l IH]; intros Honly (a0 & Ha0 & Hraise).
  - by apply elem_of_nil in Ha0.
  - simpl. destruct (f a) as [b|e'] eqn:Hfa; simpl.
    + rewrite IH; [done| |].
      * intros a' e' Ha'. apply Honly. by apply list_elem_of_further.
      * apply elem_of_cons in Ha0 as [->|Ha0]; [congruence|eauto].
    + f_equal. apply (Honly a); [apply list_elem_of_here|done].
Qed.

Lemma for_list_elem_of {A B} (f : A → result B) l bs b :
  Display.for_list f l = Ok bs → b ∈ bs ↔ ∃ a, a ∈ l ∧ f a = Ok b.
Proof.
  rewrite for_list_Ok. intros H. split.
  - intros Hb. apply list_elem_of_lookup in Hb as [k Hk].
    destruct (Forall2_lookup_r _ _ _ _ _ H Hk) as (a & Ha & Hfa).
    exists a. split; [by eapply list_elem_of_lookup_2|done].
  - intros (a & Ha & Hfa). apply list_elem_of_lookup in Ha as [k Hk].
    destruct (Forall2_lookup_l _ _ _ _ _ H Hk) as (b' & Hb' & Hfa').
    rewrite Hfa in Hfa'. injection Hfa' as <-.
    by eapply list_elem_of_lookup_2.
Qed.

Lemma for_list_length {A B} (f : A → result B) l bs :
  Display.for_list f l = Ok bs → length bs = length l.
Proof. rewrite for_list_Ok. intros H. symmetry. by eapply Forall2_length. Qed.

Lemma elem_of_concat {A} (ls : list (list A)) (x : A) :
  x ∈ concat ls ↔ ∃ l, l ∈ ls ∧ x ∈ l.
Proof.
  induction ls as [|l ls IH]; simpl.
  - split; [by intros ?%elem_of_nil|by intros (l & ?%elem_of_nil & _)].
  - rewrite elem_of_app, IH. split.
    + intros [Hx|(l' & Hl' & Hx)].
      * exists l. split; [apply list_elem_of_here|done].
      * exists l'. split; [by apply list_elem_of_further|done].
    + intros (l' & [->|Hl']%elem_of_cons & Hx); [by left|right; eauto].
Qed.

Lemma length_concat_uniform {A} (ls : list (list A)) k :
  (∀ l, l ∈ ls → length l = k) → length (concat ls) = (length ls * k)%nat.
Proof.
  induction ls as [|l ls IH]; intros Hall; simpl; [done|].
  rewrite length_app, IH, (Hall l) by eauto using list_elem_of_here, list_elem_of_further.
  done.
Qed.

Lemma get_raises {A} (a : list (list A)) i j e :
  Np.get a i j = Raise e → e = IndexError.
Proof.
  unfold Np.get, Py.getitem, Py.index.
  repeat case_decide; simpl;
    repeat (match goal with |- context [?l !! ?k] => destruct (l !! k) end;
            simpl; repeat case_decide; simpl); congruence.
Qed.

(** ** The offsets of the window *)

Lemma foldl_min_spec (l : list Z) v :
  foldl Z.min v l ∈ v :: l ∧ ∀ w, w ∈ v :: l → foldl Z.min v l ≤ w.
Proof.
  revert v. induction l as [|u l IH]; intros v; simpl.
  - split; [apply list_elem_of_here|].
    intros w ->%list_elem_of_singleton. lia.
  - destruct (IH (Z.min v u)) as [Hin Hle]. split.
    + apply elem_of_cons in Hin as [Hin|Hin].
      * rewrite Hin. destruct (Z.min_spec v u) as [[_ ->]|[_ ->]].
        -- apply list_elem_of_here.
        -- apply list_elem_of_further, list_elem_of_here.
      * by do 2 apply list_elem_of_further.
    + intros w Hw.
      assert (Hm : foldl Z.min (Z.min v u) l ≤ Z.min v u)
        by apply Hle, list_elem_of_here.
      rewrite !elem_of_cons in Hw. destruct Hw as [->|[->|Hw]]; [lia..|].
      by apply Hle, list_elem_of_further.
Qed.

Lemma min_of_spec l m :
  Display.min_of l = Ok m → m ∈ l ∧ ∀ w, w ∈ l → m ≤ w.
Proof.
  destruct l as [|v l]; [done|]. intros [= <-]. apply foldl_min_spec.
Qed.

Lemma viewport_spec N ants :
  (ants = [] → Display.viewport N ants = Raise ValueError) ∧
  (ants ≠ [] → VISIBLE_GRID ≤ N →
   ∃ offset_x offset_y,
     Display.viewport N ants = Ok (offset_x, offset_y) ∧
     0 ≤ offset_x ≤ N - VISIBLE_GRID ∧ 0 ≤ offset_y ≤ N - VISIBLE_GRID ∧
     ∀ a, a ∈ ants → 0 ≤ Ant.x a → 0 ≤ Ant.y a →
          offset_x ≤ Ant.x a ∧ offset_y ≤ Ant.y a).
Proof.
  split; [by intros ->|]. intros Hne HN.
  destruct ants as [|a0 ants]; [done|].
  unfold Display.viewport.
  destruct (Display.min_of (Ant.x <$> a0 :: ants)) as [mx|] eqn:Hmx; [|done].
  destruct (Display.min_of (Ant.y <$> a0 :: ants)) as [my|] eqn:Hmy; [|done].
  apply min_of_spec in Hmx as [_ Hmx]. apply min_of_spec in Hmy as [_ Hmy].
  simpl. eexists _, _. split; [reflexivity|].
  unfold VISIBLE_GRID in *. split_and!; try lia.
  intros a Ha Hx Hy.
  specialize (Hmx (Ant.x a) (list_elem_of_fmap_2 Ant.x _ _ Ha)).
  specialize (Hmy (Ant.y a) (list_elem_of_fmap_2 Ant.y _ _ Ha)).
  change (100 `div` 2) with 50. lia.
Qed.

(** X9: the offsets of the window.  Without ants the minimum raises a
    [ValueError].  With ants, on a grid at least as large as the window,
    both offsets lie in [0, N - VISIBLE_GRID], so the window lies on the
    grid, and no ant on the grid is left of the window or above it. *)
Theorem viewport_on_grid N ants :
  (ants = [] → Display.viewport N ants = Raise ValueError) ∧
  (ants ≠ [] → VISIBLE_GRID ≤ N →
   ∃ offset_x offset_y,
     Display.viewport N ants = Ok (offset_x, offset_y) ∧
     0 ≤ offset_x ≤ N - VISIBLE_GRID ∧ 0 ≤ offset_y ≤ N - VISIBLE_GRID ∧
     ∀ a, a ∈ ants → 0 ≤ Ant.x a → 0 ≤ Ant.y a →
          offset_x ≤ Ant.x a ∧ offset_y ≤ Ant.y a).
Proof. apply viewport_spec. Qed.

Lemma viewport_on_grid_witness :
  Display.viewport 1000 [] = Raise ValueError ∧
  Display.viewport 1000 [Ant.Build 500 20 0 1; Ant.Build 990 980 0 2] =
    Ok (450, 0) ∧
  Display.viewport 1000 [Ant.Build 990 980 0 2] = Ok (900, 900).
Proof.
  destruct (viewport_on_grid 1000 []) as [Hnone _].
  split; [by apply Hnone|]. split; reflexivity.
Defined.

(** ** The cells of the window *)

Lemma draw_cell_Ok grid offset_x offset_y y x d :
  Display.draw_cell grid offset_x offset_y y x = Ok d ↔
  ∃ c, Np.get grid (y + offset_y) (x + offset_x) = Ok c ∧
       d = (if decide (c = 0) then (255, 255, 255) else (0, 0, 0),
            Build_Rect (x * CELL_SIZE) (y * CELL_SIZE) CELL_SIZE CELL_SIZE).
Proof.
  unfold Display.draw_cell. rewrite bind_Ok. split.
  - intros (c & Hc & [= <-]). by exists c.
  - intros (c & Hc & ->). by exists c.
Qed.

Lemma draw_cell_raises grid offset_x offset_y y x e :
  Display.draw_cell grid offset_x offset_y y x = Raise e → e = IndexError.
Proof.
  unfold Display.draw_cell.
  destruct (Np.get _ _ _) as [c|e'] eqn:Hget; simpl; [done|].
  intros [= <-]. by eapply get_raises.
Qed.

Lemma draw_cells_spec grid n offset_x offset_y :
  Np.shape grid = replicate n n → 0 ≤ offset_x → 0 ≤ offset_y →
  (offset_x + VISIBLE_GRID ≤ Z.of_nat n ∧
   offset_y + VISIBLE_GRID ≤ Z.of_nat n →
   ∃ draws,
     Display.draw_cells grid offset_x offset_y = Ok draws ∧
     length draws = (100 * 100)%nat ∧
     ∀ d, d ∈ draws ↔
       ∃ x y c,
         0 ≤ x < VISIBLE_GRID ∧ 0 ≤ y < VISIBLE_GRID ∧
         Np.get grid (y + offset_y) (x + offset_x) = Ok c ∧
         d = (if decide (c = 0) then (255, 255, 255) else (0, 0, 0),
              Build_Rect (x * CELL_SIZE) (y * CELL_SIZE) CELL_SIZE CELL_SIZE)) ∧
  (¬ (offset_x + VISIBLE_GRID ≤ Z.of_nat n ∧
      offset_y + VISIBLE_GRID ≤ Z.of_nat n) →
   Display.draw_cells grid offset_x offset_y = Raise IndexError).
Proof.
  intros Hshape Hx Hy. unfold VISIBLE_GRID in *. split.
  - intros [Hxn Hyn].
    destruct (for_list_returns
      (λ y, Display.for_list (Display.draw_cell grid offset_x offset_y y)
              (seqZ 0 VISIBLE_GRID)) (seqZ 0 VISIBLE_GRID)) as [rows Hrows].
    { intros y Hyr. apply elem_of_seqZ in Hyr. apply for_list_returns.
      intros x Hxr. apply elem_of_seqZ in Hxr. unfold VISIBLE_GRID in *.
      destruct (get_square grid n (y + offset_y) (x + offset_x)) as [c Hc];
        [done|lia..|].
      eexists. apply draw_cell_Ok. eauto. }
    unfold Display.draw_cells. rewrite Hrows. simpl.
    eexists. split; [reflexivity|].
    assert (Hrow : ∀ row, row ∈ rows ↔ ∃ y, 0 ≤ y < 100 ∧
      Display.for_list (Display.draw_cell grid offset_x offset_y y)
        (seqZ 0 VISIBLE_GRID) = Ok row).
    { intros row. rewrite (for_list_elem_of _ _ _ _ Hrows).
      by setoid_rewrite elem_of_seqZ. }
    split.
    + rewrite (length_concat_uniform _ 100).
      * by rewrite (for_list_length _ _ _ Hrows), length_seqZ.
      * intros row (y & _ & Hr)%Hrow.
        by rewrite (for_list_length _ _ _ Hr), length_seqZ.
    + intros d. rewrite elem_of_concat. split.
      * intros (row & (y & Hyr & Hr)%Hrow & Hd).
        apply (for_list_elem_of _ _ _ _ Hr) in Hd as (x & Hxr & Hd).
        apply elem_of_seqZ in Hxr. apply draw_cell_Ok in Hd as (c & Hc & ->).
        exists x, y, c. unfold VISIBLE_GRID in *. split_and!; try done; lia.
      * intros (x & y & c & Hxr & Hyr & Hc & ->).
        destruct (for_list_returns (Display.draw_cell grid offset_x offset_y y)
                    (seqZ 0 VISIBLE_GRID)) as [row Hr].
        { intros x' Hxr'. apply elem_of_seqZ in Hxr'. unfold VISIBLE_GRID in *.
          destruct (get_square grid n (y + offset_y) (x' + offset_x))
            as [c' Hc']; [done|lia..|].
          eexists. apply draw_cell_Ok. eauto. }
        exists row. split; [apply Hrow; eauto|].
        apply (for_list_elem_of _ _ _ _ Hr). exists x.
        split; [apply elem_of_seqZ; unfold VISIBLE_GRID; lia|].
        apply draw_cell_Ok. eauto.
  - intros Hout. unfold Display.draw_cells.
    rewrite (for_list_raises _ _ IndexError); [done| |].
    + intros y e _ He.
      destruct (Display.for_list _ _) as [row|e'] eqn:Hr in He; [done|].
      injection He as <-. clear Hout.
      revert Hr. generalize (seqZ 0 VISIBLE_GRID).
      induction l as [|x l IH]; simpl; [done|].
      destruct (Display.draw_cell _ _ _ _ x) as [d|e''] eqn:Hd; simpl.
      * destruct (Display.for_list _ l) as [ds|e3]; simpl; [done|].
        intros [= <-]. by apply IH.
      * intros [= <-]. by eapply draw_cell_raises.
    + assert (Hcell : ∃ y x, 0 ≤ y < 100 ∧ 0 ≤ x < 100 ∧
                (Z.of_nat n ≤ y + offset_y ∨ Z.of_nat n ≤ x + offset_x)).
      { destruct (decide (offset_y + 100 ≤ Z.of_nat n)).
        - exists 0, 99. lia.
        - exists 99, 0. lia. }
      destruct Hcell as (y & x & Hyr & Hxr & Hbeyond).
      exists y. split; [apply elem_of_seqZ; unfold VISIBLE_GRID; lia|].
      apply for_list_raises.
      * intros x' e _. apply draw_cell_raises.
      * exists x. split; [apply elem_of_seqZ; unfold VISIBLE_GRID; lia|].
        unfold Display.draw_cell.
        rewrite (get_off_grid _ _ _ _ Hshape); [done|lia].
Qed.

(** X10: [draw_cells] on an [n] by [n] grid, with offsets that are not
    negative.  When the window lies on the grid it draws one square of
    side [CELL_SIZE] for each of its [VISIBLE_GRID * VISIBLE_GRID] cells,
    white for color 0 and black otherwise, at the place of the cell in the
    window; when the window reaches beyond the grid it raises an
    [IndexError]. *)
Theorem draw_cells_window grid n offset_x offset_y :
  Np.shape grid = replicate n n → 0 ≤ offset_x → 0 ≤ offset_y →
  (offset_x + VISIBLE_GRID ≤ Z.of_nat n ∧
   offset_y + VISIBLE_GRID ≤ Z.of_nat n →
   ∃ draws,
     Display.draw_cells grid offset_x offset_y = Ok draws ∧
     length draws = (100 * 100)%nat ∧
     ∀ d, d ∈ draws ↔
       ∃ x y c,
         0 ≤ x < VISIBLE_GRID ∧ 0 ≤ y < VISIBLE_GRID ∧
         Np.get grid (y + offset_y) (x + offset_x) = Ok c ∧
         d = (if decide (c = 0) then (255, 255, 255) else (0, 0, 0),
              Build_Rect (x * CELL_SIZE) (y * CELL_SIZE) CELL_SIZE CELL_SIZE)) ∧
  (¬ (offset_x + VISIBLE_GRID ≤ Z.of_nat n ∧
      offset_y + VISIBLE_GRID ≤ Z.of_nat n) →
   Display.draw_cells grid offset_x offset_y = Raise IndexError).
Proof. apply draw_cells_spec. Qed.

Lemma draw_cells_window_witness :
  (∃ draws,
     Display.draw_cells (replicate 100 (replicate 100 0)) 0 0 = Ok draws ∧
     length draws = (100 * 100)%nat) ∧
  Display.draw_cells (replicate 100 (replicate 100 0)) 1 0 = Raise IndexError.
Proof.
  destruct (draw_cells_window (replicate 100 (replicate 100 0)) 100 0 0)
    as [Hin _]; [by vm_compute|lia|lia|].
  destruct (draw_cells_window (replicate 100 (replicate 100 0)) 100 1 0)
    as [_ Hout]; [by vm_compute|lia|lia|].
  split.
  - destruct Hin as (draws & Hdraws & Hlen & _); [unfold VISIBLE_GRID; lia|].
    by exists draws.
  - apply Hout. unfold VISIBLE_GRID. lia.
Defined.

(** ** The markers of the ants *)

(** X11: the marker of an ant that is not left of the window or above it
    is drawn exactly when the ant is less than [VISIBLE_GRID] cells from the
    left and the upper edge of the window.  A marker that is drawn lies on
    the screen, within the square of the cell the ant stands on, and it is
    red for the ant with the id 1 and blue for any other. *)
Theorem draw_ant_in_window offset_x offset_y a :
  offset_x ≤ Ant.x a → offset_y ≤ Ant.y a →
  (is_Some (Display.draw_ant offset_x offset_y a) ↔
   Ant.x a < offset_x + VISIBLE_GRID ∧ Ant.y a < offset_y + VISIBLE_GRID) ∧
  ∀ color rect,
    Display.draw_ant offset_x offset_y a = Some (color, rect) →
    Display.inside rect (Build_Rect 0 0 SCREEN_SIZE SCREEN_SIZE) ∧
    Display.inside rect
      (Build_Rect ((Ant.x a - offset_x) * CELL_SIZE)
         ((Ant.y a - offset_y) * CELL_SIZE) CELL_SIZE CELL_SIZE) ∧
    (color = (255, 0, 0) ↔ Ant.pheromone a = 1) ∧
    (color = (0, 0, 255) ↔ Ant.pheromone a ≠ 1).
Proof.
  intros Hx Hy. unfold Display.draw_ant, Display.inside.
  unfold SCREEN_SIZE, VISIBLE_GRID, CELL_SIZE.
  change (8 `div` 4) with 2. change (8 `div` 2) with 4. split.
  - case_decide as Hvis; split; intros H; try done; try lia.
  - intros color rect. case_decide as Hvis; [|done]. intros [= <- <-]. simpl.
    split_and!; try lia; case_decide; split; try done; intros [=].
Qed.

Lemma draw_ant_in_window_witness :
  is_Some (Display.draw_ant 450 0 (Ant.Build 500 20 0 1)) ∧
  ¬ is_Some (Display.draw_ant 450 0 (Ant.Build 990 980 0 2)).
Proof.
  destruct (draw_ant_in_window 450 0 (Ant.Build 500 20 0 1)) as [Hnear _];
    [simpl; lia..|].
  destruct (draw_ant_in_window 450 0 (Ant.Build 990 980 0 2)) as [Hfar _];
    [simpl; lia..|].
  split.
  - apply Hnear. simpl. unfold VISIBLE_GRID. lia.
  - intros H. apply Hfar in H. simpl in H. unfold VISIBLE_GRID in H. lia.
Defined.

Lemma viewport_Ok N ants offset_x offset_y :
  Display.viewport N ants = Ok (offset_x, offset_y) →
  ∃ min_x min_y,
    min_x ∈ Ant.x <$> ants ∧ (∀ a, a ∈ ants → min_x ≤ Ant.x a) ∧
    min_y ∈ Ant.y <$> ants ∧ (∀ a, a ∈ ants → min_y ≤ Ant.y a) ∧
    offset_x = Z.max 0 (Z.min (min_x - 50) (N - 100)) ∧
    offset_y = Z.max 0 (Z.min (min_y - 50) (N - 100)).
Proof.
  unfold Display.viewport. intros H.
  apply bind_Ok in H as (mx & Hmx & H). apply bind_Ok in H as (my & Hmy & H).
  injection H as <- <-.
  apply min_of_spec in Hmx as [Hmx1 Hmx2]. apply min_of_spec in Hmy as [Hmy1 Hmy2].
  exists mx, my. split_and!; try done.
  - intros a Ha. by apply Hmx2, list_elem_of_fmap_2.
  - intros a Ha. by apply Hmy2, list_elem_of_fmap_2.
Qed.

(** X12: with the offsets that the loop computes, on a grid at least as
    large as the window, the marker of an ant on the grid is drawn whenever
    the ant is less than 50 cells to the right of the leftmost ant and less
    than 50 cells below the topmost one (as a single ant always is). *)
Theorem near_ants_are_drawn N ants offset_x offset_y a :
  VISIBLE_GRID ≤ N →
  Display.viewport N ants = Ok (offset_x, offset_y) →
  a ∈ ants → 0 ≤ Ant.x a < N → 0 ≤ Ant.y a < N →
  (∀ b, b ∈ ants → Ant.x a < Ant.x b + 50 ∧ Ant.y a < Ant.y b + 50) →
  is_Some (Display.draw_ant offset_x offset_y a).
Proof.
  intros HN Hview Ha Hx Hy Hnear. unfold VISIBLE_GRID in HN.
  apply viewport_Ok in Hview
    as (mx & my & Hmx & Hmxle & Hmy & Hmyle & -> & ->).
  apply list_elem_of_fmap in Hmx as (bx & -> & Hbx).
  apply list_elem_of_fmap in Hmy as (by_ & -> & Hby).
  pose proof (Hmxle a Ha). pose proof (Hmyle a Ha).
  destruct (Hnear bx Hbx) as [Hnx _]. destruct (Hnear by_ Hby) as [_ Hny].
  unfold Display.draw_ant, SCREEN_SIZE, VISIBLE_GRID, CELL_SIZE.
  change (8 `div` 4) with 2. rewrite decide_True; [done|]. lia.
Qed.

Lemma near_ants_are_drawn_witness :
  Display.viewport 1000 [Ant.Build 995 3 0 1] = Ok (900, 0) ∧
  is_Some (Display.draw_ant 900 0 (Ant.Build 995 3 0 1)).
Proof.
  split; [reflexivity|].
  apply (near_ants_are_drawn 1000 [Ant.Build 995 3 0 1] 900 0
           (Ant.Build 995 3 0 1)).
  - unfold VISIBLE_GRID. lia.
  - reflexivity.
  - apply list_elem_of_here.
  - simpl. lia.
  - simpl. lia.
  - intros b ->%list_elem_of_singleton. simpl. lia.
Defined.

(** ** A whole frame *)





(** X14: the grid must not be smaller than the window: on a grid of a side
    below [VISIBLE_GRID] both offsets are 0 and [draw_cells] reads beyond
    the grid, so that drawing a state with ants raises an [IndexError]. *)
Theorem render_small_grid N sim :
  0 ≤ N < VISIBLE_GRID → Sim.shaped N sim → Sim.ants sim ≠ [] →
  Display.viewport N (Sim.ants sim) = Ok (0, 0) ∧
  Display.render N sim = Raise IndexError.
Proof.
  intros HN (Hg & _) Hants. unfold VISIBLE_GRID in HN.
  assert (Hview : Display.viewport N (Sim.ants sim) = Ok (0, 0)).
  { destruct (Sim.ants sim) as [|a ants] eqn:Ha; [done|].
    unfold Display.viewport. simpl. unfold VISIBLE_GRID.
    do 2 f_equal; lia. }
  split; [done|]. unfold Display.render. rewrite Hview. simpl.
  destruct (draw_cells_spec (Sim.grid sim) (Z.to_nat N) 0 0) as [_ Hout];
    [done|lia..|].
  rewrite Hout; [done|]. unfold VISIBLE_GRID. lia.
Qed.

Lemma render_small_grid_witness :
  Display.viewport 10 (Sim.ants scenario) = Ok (0, 0) ∧
  Display.render 10 scenario = Raise IndexError.
Proof.
  apply (render_small_grid 10 scenario).
  - unfold VISIBLE_GRID. lia.
  - by vm_compute.
  - done.
Defined.
